(** * placesmap: the prefix registry and the HTML template mapper

    A shallow embedding of [placesmap/placesmap.go].  Go strings are byte
    sequences and are modelled by [string] (a sequence of [ascii] bytes); Go's
    [int] is modelled by [Z]; Go maps by stdpp's [gmap]. *)

From Stdlib Require Import ZArith Lia Ascii.
From stdpp Require Import base gmap strings list.

Local Open Scope Z_scope.

(** ** The standard library functions the package calls on strings *)

Module strings.

(** The byte of a string as a number, as Go compares it. *)
Definition byte (c : ascii) : N := N_of_ascii c.

(** [strings.IndexRune(s, r)] for a rune below [utf8.RuneSelf]: the index of the
    first byte equal to [c], or [-1]. *)
Fixpoint IndexByte (s : string) (c : ascii) : Z :=
  match s with
  | EmptyString => -1
  | String b s' =>
      if Ascii.eqb b c then 0
      else let i := IndexByte s' c in if i =? -1 then -1 else i + 1
  end.

(** [strings.ContainsRune(s, r)], again for a one-byte rune. *)
Definition ContainsByte (s : string) (c : ascii) : bool :=
  negb (IndexByte s c =? -1).

(** The slice expressions [s[lo:hi]] and [s[lo:]], for indices within
    [0 <= lo <= hi <= len(s)]. *)
Definition slice (s : string) (lo hi : Z) : string :=
  String.substring (Z.to_nat lo) (Z.to_nat (hi - lo)) s.

Definition slice_from (s : string) (lo : Z) : string :=
  slice s lo (Z.of_nat (String.length s)).

(** The table [asciiSpace] of package strings: tab, newline, vertical tab, form
    feed, carriage return and the space. *)
Definition asciiSpace (c : ascii) : bool :=
  let n := byte c in
  ((9 <=? n) && (n <=? 13) || (n =? 32))%N.

(** [unicode.IsSpace] on the runes that take two or three bytes, read off their
    UTF-8 encoding: U+0085 and U+00A0; U+1680, U+2000 to U+200A, U+2028, U+2029,
    U+202F, U+205F and U+3000. *)
Definition space2 (b0 b1 : ascii) : bool :=
  ((byte b0 =? 0xC2) && ((byte b1 =? 0x85) || (byte b1 =? 0xA0)))%N.

Definition space3 (b0 b1 b2 : ascii) : bool :=
  ((byte b0 =? 0xE1) && (byte b1 =? 0x9A) && (byte b2 =? 0x80)
   || (byte b0 =? 0xE2) && (byte b1 =? 0x80)
      && ((0x80 <=? byte b2) && (byte b2 <=? 0x8A)
          || (byte b2 =? 0xA8) || (byte b2 =? 0xA9) || (byte b2 =? 0xAF))
   || (byte b0 =? 0xE2) && (byte b1 =? 0x81) && (byte b2 =? 0x9F)
   || (byte b0 =? 0xE3) && (byte b1 =? 0x80) && (byte b2 =? 0x80))%N.

(** [strings.TrimLeftFunc(s, unicode.IsSpace)]: drop white space runes from the
    front. *)
Fixpoint TrimLeft (s : string) : string :=
  match s with
  | EmptyString => s
  | String b0 s1 =>
      if asciiSpace b0 then TrimLeft s1
      else
        match s1 with
        | EmptyString => s
        | String b1 s2 =>
            if space2 b0 b1 then TrimLeft s2
            else
              match s2 with
              | EmptyString => s
              | String b2 s3 => if space3 b0 b1 b2 then TrimLeft s3 else s
              end
        end
  end.

(** The same from the back, on the reversed string: the bytes of a rune arrive
    last byte first. *)
Fixpoint TrimLeftRev (s : string) : string :=
  match s with
  | EmptyString => s
  | String b0 s1 =>
      if asciiSpace b0 then TrimLeftRev s1
      else
        match s1 with
        | EmptyString => s
        | String b1 s2 =>
            if space2 b1 b0 then TrimLeftRev s2
            else
              match s2 with
              | EmptyString => s
              | String b2 s3 => if space3 b2 b1 b0 then TrimLeftRev s3 else s
              end
        end
  end.

Definition TrimRight (s : string) : string :=
  String.rev (TrimLeftRev (String.rev s)).

(** [strings.TrimSpace]. *)
Definition TrimSpace (s : string) : string := TrimRight (TrimLeft s).

(** [strings.SplitN(s, sep, 2)] for a one-byte separator: one piece when [sep]
    does not occur, else the text before and the text after its first
    occurrence. *)
Definition SplitN2 (s : string) (sep : ascii) : list string :=
  let i := IndexByte s sep in
  if i =? -1 then [s] else [slice s 0 i; slice_from s (i + 1)].

(** [strings.Split(s, sep)] for a one-byte separator: all the pieces. *)
Fixpoint Split_go (cur : string) (s : string) (sep : ascii) : list string :=
  match s with
  | EmptyString => [String.rev cur]
  | String b s' =>
      if Ascii.eqb b sep then String.rev cur :: Split_go EmptyString s' sep
      else Split_go (String b cur) s' sep
  end.

Definition Split (s : string) (sep : ascii) : list string :=
  Split_go EmptyString s sep.

End strings.

(** ** split *)

(** The byte ['\t'], which a string literal cannot hold. *)
Definition tab : ascii := ascii_of_nat 9.

(** [split] returns the prefix and the rest of a placeholder. *)
Definition split (input : string) : string * string :=
  if String.eqb input "" || String.eqb input "-" then ("", "")
  else
    match input with
    | String c _ =>
        if negb (Ascii.eqb c "-") then ("", input)
        else
          let idx := strings.IndexByte input " " in
          if idx =? -1 then (strings.slice_from input 1, "")
          else (strings.slice input 1 idx,
                strings.TrimSpace (strings.slice_from input idx))
    | EmptyString => ("", "")
    end.


(** ** Mappers *)

(** A value of interface type [places.Mapper].  Which methods the value has is
    what the type assertion [m.(NMapper)] tests: a [Leaf] has [Map] alone, a
    [Coll] has [Map], [Len] and [NMap] as well.  Methods are pure functions
    (the providers of this package and of its example program are), and a
    collection's elements are again mappers; the nesting of collections is
    well-founded, as it is for data built from slices. *)
Inductive Mapper : Type :=
| Leaf (Map : string -> string)
| Coll (Map : string -> string) (Len : Z) (NMap : Z -> string -> Mapper).

Definition Mapper_Map (m : Mapper) : string -> string :=
  match m with
  | Leaf f => f
  | Coll f _ _ => f
  end.

(** The type assertion [m.(NMapper)]. *)
Definition isNMapper (m : Mapper) : bool :=
  match m with
  | Leaf _ => false
  | Coll _ _ _ => true
  end.

(** [Empty], [String], [Self] and [MapFunc]. *)
Definition Empty : Mapper := Leaf (fun _ => "").
Definition String_ (s : string) : Mapper := Leaf (fun _ => s).
Definition Self (s : string) : Mapper := Leaf (fun placeholder => s +:+ placeholder).
Definition MapFunc (f : string -> string) : Mapper := Leaf f.

(** ** The registry [_map] *)

Module Registry.

(** The errors of [Add]; [None] is Go's [nil]. *)
Inductive error : Type :=
| ErrInvalidPrefix
| MapperAlreadyExistsError (prefix : string).

(** [prefixRule.MatchString]: the regular expression [^[a-z]+$], at least one
    byte and every byte a lower-case letter. *)
Definition lower (c : ascii) : bool :=
  ((97 <=? strings.byte c) && (strings.byte c <=? 122))%N.

Fixpoint all_lower (s : string) : bool :=
  match s with
  | EmptyString => true
  | String c s' => lower c && all_lower s'
  end.

Definition prefixRule (s : string) : bool :=
  negb (String.eqb s "") && all_lower s.

(** [Add] writes the Go map in place: the model returns the map after the call
    and the error. *)
Definition Add (mp : gmap string Mapper) (prefix : string) (mapper : Mapper)
  : gmap string Mapper * option error :=
  if negb (String.eqb prefix "") && negb (prefixRule prefix) then
    (mp, Some ErrInvalidPrefix)
  else
    match mp !! prefix with
    | Some _ => (mp, Some (MapperAlreadyExistsError prefix))
    | None => (<[prefix := mapper]> mp, None)
    end.

Definition Map (mp : gmap string Mapper) (input : string) : string :=
  let '(prefix, rest) := split input in
  if String.eqb prefix "" && String.eqb rest "" then ""
  else
    match mp !! prefix with
    | None => ""
    | Some m => Mapper_Map m rest
    end.

(** [New] returns the empty registry. *)
Definition New : gmap string Mapper := ∅.

(** The registries a program can build: the type is unexported, so a registry
    is [New ()] after some calls of [Add]. *)
Inductive reachable : gmap string Mapper -> Prop :=
| reach_New : reachable New
| reach_Add mp prefix mapper : reachable mp -> reachable (Add mp prefix mapper).1.

End Registry.

(** ** Escaping: packages html, net/url and strconv *)

(** The double quote and the newline byte, and the one-byte string. *)
Definition dquote : ascii := ascii_of_nat 34.
Definition newline : ascii := ascii_of_nat 10.
Definition str1 (c : ascii) : string := String c EmptyString.

Module html.

Definition escape_byte (c : ascii) : string :=
  if Ascii.eqb c "&" then "&amp;"
  else if Ascii.eqb c "'" then "&#39;"
  else if Ascii.eqb c "<" then "&lt;"
  else if Ascii.eqb c ">" then "&gt;"
  else if Ascii.eqb c dquote then "&#34;"
  else str1 c.

(** [html.EscapeString]: the replacer over the five bytes. *)
Fixpoint EscapeString (s : string) : string :=
  match s with
  | EmptyString => EmptyString
  | String c s' => escape_byte c +:+ EscapeString s'
  end.

(** [strings.HasPrefix]. *)
Fixpoint HasPrefix (s p : string) {struct p} : bool :=
  match p, s with
  | EmptyString, _ => true
  | String a p', String b s' => Ascii.eqb a b && HasPrefix s' p'
  | String _ _, EmptyString => false
  end.

(** The character reference [s] starts with, among those [EscapeString]
    writes: the byte it stands for and how many bytes follow the ampersand. *)
Definition reference (s : string) : option (ascii * nat) :=
  if HasPrefix s "&amp;" then Some ("&"%char, 4%nat)
  else if HasPrefix s "&#39;" then Some ("'"%char, 4%nat)
  else if HasPrefix s "&lt;" then Some ("<"%char, 3%nat)
  else if HasPrefix s "&gt;" then Some (">"%char, 3%nat)
  else if HasPrefix s "&#34;" then Some (dquote, 4%nat)
  else None.

(** HTML-unescaping, as far as [EscapeString] can be undone: a reference is
    replaced by its byte, every other byte is kept.  [skip] counts the bytes of
    a reference still to drop.  (Go's [html.UnescapeString] reads these five
    references the same way, and more that [EscapeString] never writes.) *)
Fixpoint unescape_go (skip : nat) (s : string) : string :=
  match s with
  | EmptyString => EmptyString
  | String c s' =>
      match skip with
      | S k => unescape_go k s'
      | O =>
          match reference s with
          | Some (b, k) => String b (unescape_go k s')
          | None => String c (unescape_go O s')
          end
      end
  end.

Definition UnescapeString (s : string) : string := unescape_go O s.

End html.

Module url.

Definition upperhex (n : N) : ascii :=
  ascii_of_N (if (n <? 10)%N then 48 + n else 55 + n)%N.

(** [shouldEscape(c, encodeQueryComponent)]: letters, digits and [-_.~] stay. *)
Definition shouldEscape (c : ascii) : bool :=
  let n := strings.byte c in
  negb (((97 <=? n) && (n <=? 122)) || ((65 <=? n) && (n <=? 90))
        || ((48 <=? n) && (n <=? 57))
        || (n =? 45) || (n =? 95) || (n =? 46) || (n =? 126))%N.

Definition escape_byte (c : ascii) : string :=
  if Ascii.eqb c " " then "+"
  else if shouldEscape c then
    String "%" (String (upperhex (strings.byte c / 16)) (str1 (upperhex (strings.byte c mod 16))))
  else str1 c.

(** [url.QueryEscape]. *)
Fixpoint QueryEscape (s : string) : string :=
  match s with
  | EmptyString => EmptyString
  | String c s' => escape_byte c +:+ QueryEscape s'
  end.

(** [unhex], with [ishex] folded in. *)
Definition unhex (c : ascii) : option N :=
  let n := strings.byte c in
  if ((48 <=? n) && (n <=? 57))%N then Some (n - 48)%N
  else if ((97 <=? n) && (n <=? 102))%N then Some (n - 97 + 10)%N
  else if ((65 <=? n) && (n <=? 70))%N then Some (n - 65 + 10)%N
  else None.

(** [url.QueryUnescape]: percent-decoding; [None] is the [EscapeError]. *)
Fixpoint QueryUnescape (s : string) : option string :=
  match s with
  | EmptyString => Some EmptyString
  | String c s' =>
      if Ascii.eqb c "%" then
        match s' with
        | String h1 (String h2 s'') =>
            match unhex h1, unhex h2, QueryUnescape s'' with
            | Some a, Some b, Some r => Some (String (ascii_of_N (a * 16 + b)) r)
            | _, _, _ => None
            end
        | _ => None
        end
      else
        match QueryUnescape s' with
        | Some r => Some (String (if Ascii.eqb c "+" then " "%char else c) r)
        | None => None
        end
  end.

End url.

Module utf8.

(** [utf8.RuneError]. *)
Definition RuneError : Z := 0xFFFD.

Definition cont (c : ascii) : bool :=
  let n := Z.of_N (strings.byte c) in (0x80 <=? n) && (n <=? 0xBF).

(** [utf8.DecodeRuneInString]: the first rune of [s] and its width in bytes;
    [(RuneError, 1)] for a byte sequence that is no shortest-form encoding. *)
Definition DecodeRuneInString (s : string) : Z * nat :=
  match s with
  | EmptyString => (RuneError, 0%nat)
  | String c0 s1 =>
      let b0 := Z.of_N (strings.byte c0) in
      if b0 <? 0x80 then (b0, 1%nat)
      else if (b0 <? 0xC2) || (0xF4 <? b0) then (RuneError, 1%nat)
      else
        match s1 with
        | EmptyString => (RuneError, 1%nat)
        | String c1 s2 =>
            let b1 := Z.of_N (strings.byte c1) in
            let lo := if b0 =? 0xE0 then 0xA0 else if b0 =? 0xF0 then 0x90 else 0x80 in
            let hi := if b0 =? 0xED then 0x9F else if b0 =? 0xF4 then 0x8F else 0xBF in
            if (b1 <? lo) || (hi <? b1) then (RuneError, 1%nat)
            else if b0 <? 0xE0 then
              (Z.lor (Z.shiftl (Z.land b0 0x1F) 6) (Z.land b1 0x3F), 2%nat)
            else
              match s2 with
              | EmptyString => (RuneError, 1%nat)
              | String c2 s3 =>
                  let b2 := Z.of_N (strings.byte c2) in
                  if negb (cont c2) then (RuneError, 1%nat)
                  else if b0 <? 0xF0 then
                    (Z.lor (Z.lor (Z.shiftl (Z.land b0 0x0F) 12)
                                  (Z.shiftl (Z.land b1 0x3F) 6))
                           (Z.land b2 0x3F), 3%nat)
                  else
                    match s3 with
                    | EmptyString => (RuneError, 1%nat)
                    | String c3 _ =>
                        let b3 := Z.of_N (strings.byte c3) in
                        if negb (cont c3) then (RuneError, 1%nat)
                        else
                          (Z.lor (Z.lor (Z.lor (Z.shiftl (Z.land b0 0x07) 18)
                                               (Z.shiftl (Z.land b1 0x3F) 12))
                                        (Z.shiftl (Z.land b2 0x3F) 6))
                                 (Z.land b3 0x3F), 4%nat)
                    end
              end
        end
  end.

Definition chr (n : Z) : ascii := ascii_of_N (Z.to_N n).

(** [utf8.AppendRune] onto the empty buffer. *)
Definition EncodeRune (r : Z) : string :=
  if r <=? 0x7F then str1 (chr r)
  else if r <=? 0x7FF then
    String (chr (Z.lor 0xC0 (Z.shiftr r 6))) (str1 (chr (Z.lor 0x80 (Z.land r 0x3F))))
  else if (0x10FFFF <? r) || ((0xD800 <=? r) && (r <=? 0xDFFF)) then
    String (chr 0xEF) (String (chr 0xBF) (str1 (chr 0xBD)))
  else if r <=? 0xFFFF then
    String (chr (Z.lor 0xE0 (Z.shiftr r 12)))
      (String (chr (Z.lor 0x80 (Z.land (Z.shiftr r 6) 0x3F)))
         (str1 (chr (Z.lor 0x80 (Z.land r 0x3F)))))
  else
    String (chr (Z.lor 0xF0 (Z.shiftr r 18)))
      (String (chr (Z.lor 0x80 (Z.land (Z.shiftr r 12) 0x3F)))
         (String (chr (Z.lor 0x80 (Z.land (Z.shiftr r 6) 0x3F)))
            (str1 (chr (Z.lor 0x80 (Z.land r 0x3F)))))).

End utf8.

Module strconv.

Section Tables.

(** [strconv.IsPrint] above Latin-1 consults the generated Unicode tables
    [isPrint16], [isNotPrint16], [isPrint32] and [isNotPrint32]; they are a
    parameter of the model. *)
Variable isPrintTable : Z -> bool.

Definition IsPrint (r : Z) : bool :=
  if r <=? 0xFF then
    if (0x20 <=? r) && (r <? 0x7F) then true
    else if (0xA1 <=? r) && (r <=? 0xFF) then negb (r =? 0xAD)
    else false
  else isPrintTable r.

Definition lowerhex (n : Z) : ascii :=
  utf8.chr (if n <? 10 then 48 + n else 87 + n).

(** The hexadecimal digits of [r] from bit [4 * n] down. *)
Fixpoint hexdigits (n : nat) (r : Z) : string :=
  match n with
  | O => EmptyString
  | S n' => String (lowerhex (Z.land (Z.shiftr r (4 * Z.of_nat n')) 0xF)) (hexdigits n' r)
  end.

Definition backslash : ascii := ascii_of_nat 92.

(** [appendEscapedRune] for the double quote, neither ASCII-only nor
    graphic-only. *)
Definition escapedRune (r : Z) : string :=
  if (r =? 34) || (r =? 92) then String backslash (str1 (utf8.chr r))
  else if IsPrint r then utf8.EncodeRune r
  else if r =? 7 then String backslash "a"
  else if r =? 8 then String backslash "b"
  else if r =? 12 then String backslash "f"
  else if r =? 10 then String backslash "n"
  else if r =? 13 then String backslash "r"
  else if r =? 9 then String backslash "t"
  else if r =? 11 then String backslash "v"
  else if (r <? 32) || (r =? 0x7F) then String backslash (String "x" (hexdigits 2 r))
  else if r <? 0x10000 then String backslash (String "u" (hexdigits 4 r))
  else String backslash (String "U" (hexdigits 8 r)).

(** The loop of [appendQuotedWith]: [skip] counts the bytes of the current rune
    still to pass over; the closing quote ends the output. *)
Fixpoint quote_go (skip : nat) (s : string) : string :=
  match s with
  | EmptyString => str1 dquote
  | String c s' =>
      match skip with
      | S k => quote_go k s'
      | O =>
          let '(r, width) := utf8.DecodeRuneInString s in
          (if (Nat.eqb width 1) && (r =? utf8.RuneError) then
             String backslash (String "x" (hexdigits 2 (Z.of_N (strings.byte c))))
           else escapedRune r)
          +:+ quote_go (Nat.pred width) s'
      end
  end.

(** [strconv.Quote], which is what [fmt.Sprintf] writes for the verb [%#v] and
    an argument of type string. *)
Definition Quote (s : string) : string := String dquote (quote_go O s).

End Tables.

End strconv.

(** ** Templates *)

(** Modelled from the spec: the parsed template of the byte-level template
    engine (package places, [places.Template], which is not among the sources),
    as the literal text and the placeholders of the template in their order. *)
Inductive segment : Type :=
| Text (s : string)
| Place (expr : string).

Definition Template : Type := list segment.

(** ** The HTML template mapper *)

(** [HTMLTemplateMapper], with the cache [rsm] of the [HTMLTemplate] it embeds.
    An entry of [indexes] and [preferred] are interface values: [None] is
    [nil].  The model is sequential, so a mutex held around one map read is
    not modelled; neither is the read lock of the cache, which [_map] takes
    twice and releases never.  The calls of [fmt.Printf] that trace the
    dispatch on standard output are left out. *)
Record HTMLTemplateMapper : Type := mkMapper {
  h_rsm : gmap string Template;
  h_m : gmap string Mapper;
  h_preferred : option Mapper;
  h_indexes : list (option Mapper);
  h_depth : Z
}.

(** [NewMapper]. *)
Definition NewMapper (rsm : gmap string Template) (m : gmap string Mapper)
  : HTMLTemplateMapper :=
  mkMapper rsm m None [] 0.

(** What a method call on the mapper comes to: a value and the mapper after
    the call, a run-time panic that aborts the render, or more nested calls of
    [Map] than the fuel of the model allows. *)
Inductive result (A : Type) : Type :=
| Ok (a : A) (h : HTMLTemplateMapper)
| Panic (msg : string)
| OutOfFuel.

Arguments Ok {A} a h.
Arguments Panic {A} msg.
Arguments OutOfFuel {A}.

Definition M (A : Type) : Type := HTMLTemplateMapper -> result A.

Definition ret {A} (a : A) : M A := fun h => Ok a h.

Definition bind {A B} (c : M A) (k : A -> M B) : M B :=
  fun h =>
    match c h with
    | Ok a h' => k a h'
    | Panic msg => Panic msg
    | OutOfFuel => OutOfFuel
    end.

Definition panic {A} (msg : string) : M A := fun _ => Panic msg.
Definition get : M HTMLTemplateMapper := fun h => Ok h h.
Definition modify (f : HTMLTemplateMapper -> HTMLTemplateMapper) : M unit :=
  fun h => Ok tt (f h).

Declare Scope go_scope.
Delimit Scope go_scope with go.
Notation "'let*' x ':=' c 'in' k" := (bind c (fun x => k))
  (at level 10, x name, c at level 200, k at level 200) : go_scope.
Local Open Scope go_scope.

(** The assignments to the fields. *)
Definition set_preferred (p : option Mapper) : M unit :=
  modify (fun h => mkMapper (h_rsm h) (h_m h) p (h_indexes h) (h_depth h)).
Definition set_indexes (l : list (option Mapper)) : M unit :=
  modify (fun h => mkMapper (h_rsm h) (h_m h) (h_preferred h) l (h_depth h)).
Definition set_depth (d : Z) : M unit :=
  modify (fun h => mkMapper (h_rsm h) (h_m h) (h_preferred h) (h_indexes h) d).

Definition index_out_of_range : string := "index out of range".
Definition slice_out_of_range : string := "slice bounds out of range".

(** The index expression [l[i]]. *)
Definition at_index {A} (l : list A) (i : Z) : option A :=
  if i <? 0 then None else l !! Z.to_nat i.

(** [h.indexes[h.depth-1] = nmm]. *)
Definition store_index (nmm : Mapper) : M unit :=
  let* h := get in
  let i := h_depth h - 1 in
  match at_index (h_indexes h) i with
  | Some _ => set_indexes (<[Z.to_nat i := Some nmm]> (h_indexes h))
  | None => panic index_out_of_range
  end.

(** [h.indexes = h.indexes[:len(h.indexes)-1]]. *)
Definition pop_index : M unit :=
  let* h := get in
  match h_indexes h with
  | [] => panic slice_out_of_range
  | _ :: _ => set_indexes (removelast (h_indexes h))
  end.

Definition findMapper (depth : Z) : M (option Mapper) :=
  let* h := get in
  if Z.of_nat (length (h_indexes h)) >? depth then ret None
  else
    match at_index (h_indexes h) (depth - 1) with
    | Some nm => ret nm
    | None => panic index_out_of_range
    end.

(** The loop of [findNestedMapper], [n] rounds from [d] on. *)
Fixpoint findNestedMapper_loop (n : nat) (d : Z) (m : option Mapper)
  : M (option Mapper) :=
  match n with
  | O => ret m
  | S n' =>
      let* nm := findMapper d in
      match nm with
      | None => ret m
      | Some _ => findNestedMapper_loop n' (d + 1) nm
      end
  end.

Definition findNestedMapper (sub : string) : M (option Mapper) :=
  if String.eqb sub "" then ret (Some (String_ ""))
  else
    let sb := strings.Split sub "." in
    let* h := get in
    if negb (Z.of_nat (length sb) =? h_depth h) then
      ret (Some (String_ "[Error] too deep var declaration"))
    else findNestedMapper_loop (S (length sb)) 0 None.

Section Engine.

(** The Unicode tables of [strconv.IsPrint], and what [fmt] writes for the verb
    [%#v] and a mapper (the Go syntax of its dynamic value). *)
Variable isPrintTable : Z -> bool.
Variable GoSyntax : Mapper -> string.

Section Dispatch.

(** [h.Map], as the template engine calls it back for each placeholder; the
    mapper the methods below hand to [ReplaceMapper] is always [h] itself. *)
Variable rec : string -> M string.

(** Modelled from the spec: the method [ReplaceMapper] of [places.Template], of the
    byte-level template engine, which writes the literal text and, for each
    placeholder in turn, what the mapper returns for it.  [bf] is the buffer
    before, the result the buffer after. *)
Fixpoint ReplaceMapper (t : Template) (bf : string) : M string :=
  match t with
  | [] => ret bf
  | Text s :: t' => ReplaceMapper t' (bf +:+ s)
  | Place expr :: t' => let* v := rec expr in ReplaceMapper t' (bf +:+ v)
  end.

Definition require (name : string) : M string :=
  let* h := get in
  match h_rsm h !! name with
  | Some t => ReplaceMapper t ""
  | None => ret ""
  end.

(** The leaf case of the loops: [h.preferred = m; t.ReplaceMapper(bf, h);
    h.preferred = nil]. *)
Definition render_leaf (t : Template) (m : Mapper) (bf : string) : M string :=
  let* _ := set_preferred (Some m) in
  let* bf' := ReplaceMapper t bf in
  let* _ := set_preferred None in
  ret bf'.

(** The loop [for i := 0; i < l; i++] with [n] rounds to go from [i] on; the
    body writes to the buffer. *)
Fixpoint for_loop (body : Z -> string -> M string) (n : nat) (i : Z) (bf : string)
  : M string :=
  match n with
  | O => ret bf
  | S n' => let* bf' := body i bf in for_loop body n' (i + 1) bf'
  end.

(** [replaceVars]; the parameter [nm] is of interface type [NMapper], so the
    case of a [Leaf] does not arise. *)
Fixpoint replaceVars (t : Template) (nm : Mapper) (sub : string) (bf : string)
  {struct nm} : M string :=
  match nm with
  | Leaf _ => ret bf
  | Coll _ l NMap =>
      for_loop
        (fun i bf =>
           let m := NMap i sub in
           match m with
           | Coll _ _ _ => replaceVars t m sub bf
           | Leaf _ => render_leaf t m bf
           end)
        (Z.to_nat l) 0 bf
  end.

(** The arguments of an [each] placeholder, lines 462 to 470: the name of the
    binding, the sub-path and the name of the template.  [None] when [rest]
    holds no space: the index expression [s[1]] panics. *)
Definition each_args (rest : string) : option (string * string * string) :=
  match strings.SplitN2 rest " " with
  | [s0; s1] =>
      let mpName := strings.TrimSpace s0 in
      let inc := strings.TrimSpace s1 in
      if strings.ContainsByte mpName "." then
        match strings.SplitN2 mpName "." with
        | [sp0; sp1] => Some (sp0, sp1, inc)
        | _ => None
        end
      else Some (mpName, "", inc)
  | _ => None
  end.

(** The body of the loop of the [each] branch, for the element at [i]. *)
Definition each_body (t : Template) (NMap : Z -> string -> Mapper) (sub : string)
  (i : Z) (bf : string) : M string :=
  let m := NMap i sub in
  if isNMapper m then
    let* _ := store_index m in
    replaceVars t m sub bf
  else if negb (String.eqb sub "") then
    let* _ := set_depth (Z.of_nat (length (strings.Split sub "."))) in
    let* p := findNestedMapper sub in
    let* _ := set_preferred p in
    let* bf' := ReplaceMapper t bf in
    let* _ := set_indexes [] in
    let* _ := set_depth 0 in
    ret bf'
  else
    let* _ := set_preferred None in
    render_leaf t m bf.

Definition _map (input : string) : M string :=
  let '(prefix, rest) := split input in
  if String.eqb prefix "require" then require rest
  else if String.eqb prefix "each" then
    match each_args rest with
    | None => panic index_out_of_range
    | Some (mpName, sub, inc) =>
        let* h := get in
        match h_m h !! mpName with
        | None => ret ""
        | Some mp =>
            match h_rsm h !! inc with
            | None => ret ""
            | Some t =>
                match mp with
                | Coll _ l NMap =>
                    let* _ := set_depth (h_depth h + 1) in
                    let* _ := set_indexes (h_indexes h ++ [None]) in
                    let* bf := for_loop (each_body t NMap sub) (Z.to_nat l) 0 "" in
                    let* bf := replaceVars t mp sub bf in
                    let* _ := set_preferred None in
                    let* _ := pop_index in
                    let* h' := get in
                    let* _ := set_depth (h_depth h' - 1) in
                    ret bf
                | Leaf _ =>
                    ret ("not a NMapper: " +:+ GoSyntax mp +:+ str1 newline)
                end
            end
        end
    end
  else
    let* h := get in
    match h_m h !! rest with
    | None => ret ""
    | Some mp =>
        if String.eqb prefix "js" then
          ret (strconv.Quote isPrintTable (Mapper_Map mp rest))
        else if String.eqb prefix "raw" then ret (Mapper_Map mp rest)
        else if String.eqb prefix "html" then ret (Mapper_Map mp rest)
        else if String.eqb prefix "url" then
          ret (url.QueryEscape (Mapper_Map mp rest))
        else if String.eqb prefix "include" then
          let val := Mapper_Map mp (strings.TrimSpace rest) in
          if negb (String.eqb val "") then require val else ret ""
        else ret (html.EscapeString (Mapper_Map mp rest))
    end.

(** The body of [Map]. *)
Definition Map_body (input : string) : M string :=
  let* h := get in
  match h_preferred h with
  | Some p =>
      let out := Mapper_Map p input in
      if negb (String.eqb out "") then ret out else _map input
  | None => _map input
  end.

End Dispatch.

(** [Map]: the calls of [Map] that the templates make nest at most [fuel]
    deep. *)
Fixpoint Map (fuel : nat) (input : string) : M string :=
  match fuel with
  | O => fun _ => OutOfFuel
  | S fuel' => Map_body (Map fuel') input
  end.

End Engine.

(** ** The providers of the example program *)

Module Demo.

Record Company : Type := mkCompany { Name : string }.

Record User : Type := mkUser {
  Firstname : string;
  Lastname : string;
  ID : string;
  UserCompanies : list Company
}.

(** [Company.Map]. *)
Definition Company_Map (c : Company) (i : string) : string :=
  if String.eqb i "name" then Name c else "".

(** [Companies.NMap], and the value of type [Companies] with its methods
    [Map], [Len] and [NMap]. *)
Definition Companies_NMap (c : list Company) (n : Z) (sub : string) : Mapper :=
  if n >? Z.of_nat (length c) - 1 then String_ ""
  else match at_index c n with
       | Some x => Leaf (Company_Map x)
       | None => String_ ""
       end.

Definition Companies (c : list Company) : Mapper :=
  Coll (fun _ => "") (Z.of_nat (length c)) (Companies_NMap c).

(** [User.Map]. *)
Definition User_Map (u : User) (i : string) : string :=
  if String.eqb i "firstname" then Firstname u
  else if String.eqb i "lastname" then Lastname u
  else if String.eqb i "id" then ID u
  else "".

(** [Users.NMap], and the value of type [Users] with its methods. *)
Definition Users_NMap (u : list User) (n : Z) (sub : string) : Mapper :=
  if n >? Z.of_nat (length u) - 1 then String_ ""
  else match at_index u n with
       | Some x =>
           if String.eqb sub "companies" then Companies (UserCompanies x)
           else Leaf (User_Map x)
       | None => String_ ""
       end.

Definition Users (u : list User) : Mapper :=
  Coll (fun _ => "") (Z.of_nat (length u)) (Users_NMap u).

(** The two users of [serve2]. *)
Definition u : list User :=
  [ mkUser "Donald" "Duck" "1" [mkCompany "Walt Disney"];
    mkUser "Mickey" "Mouse" "2" [mkCompany "Universal"] ].

(** Bindings as [serve2] sets them, and a cache with a row template for a
    user and one for a company. *)
Definition bindings : gmap string Mapper :=
  {[ "users" := Users u; "myclass" := String_ "<hiho>" ]}.

Definition cache : gmap string Template :=
  {[ "row" := [Text "<li>"; Place "firstname"; Text "</li>"];
     "company" := [Text "<b>"; Place "name"; Text "</b>"] ]}.

End Demo.

(** The cache of the example with three templates more, each one a single
    [each] placeholder, so that [each] placeholders nest. *)
Definition nesting_cache : gmap string Template :=
  <[ "outer" := [Place "-each missing row"] ]>
    (<[ "sub" := [Place "-each users.x inner"] ]>
       (<[ "inner" := [Place "-each users.companies company"] ]> Demo.cache)).

(** ** The other providers of the package *)


(** [HTMLEscape] and [UrlEscape]. *)
Definition HTMLEscape : Mapper := MapFunc html.EscapeString.
Definition UrlEscape : Mapper := MapFunc url.QueryEscape.

(** ** The map of readers and the cache built from it *)

(** An [io.ReadSeeker]: the [*bytes.Reader] over the bytes [s] at the offset
    [i], which is what [fileReader] builds, or a reader whose [Seek] or whose
    [Read] returns an error. *)
Inductive ReadSeeker : Type :=
| BytesReader (s : string) (i : Z)
| SeekError
| ReadError.

(** [rs.Seek(0, 0)]: the reader after the call, and whether the error is
    [nil]. *)
Definition Seek_start (rs : ReadSeeker) : ReadSeeker * bool :=
  match rs with
  | BytesReader s _ => (BytesReader s 0, true)
  | SeekError => (SeekError, false)
  | ReadError => (ReadError, true)
  end.

(** [ioutil.ReadAll(rs)]: the bytes from the offset to the end, or [None] for
    an error, and the reader after the call. *)
Definition ReadAll (rs : ReadSeeker) : option string * ReadSeeker :=
  match rs with
  | BytesReader s i =>
      (Some (strings.slice_from s i), BytesReader s (Z.of_nat (String.length s)))
  | SeekError => (None, SeekError)
  | ReadError => (None, ReadError)
  end.

(** The steps [Map] and [NewHTMLTemplate] share: seek to the start and read
    all; the bytes read when neither call fails, and the reader afterwards. *)
Definition read_from_start (rs : ReadSeeker) : option string * ReadSeeker :=
  let '(rs1, ok) := Seek_start rs in
  if ok then ReadAll rs1 else (None, rs1).

Module ReadSeekerMap.

(** [ReadSeekerAlreadyExistsError]. *)
Inductive error : Type :=
| ReadSeekerAlreadyExistsError (name : string).

(** [NewReadSeekerMap]: the field [m], empty. *)
Definition New : gmap string ReadSeeker := ∅.

Definition Add (r : gmap string ReadSeeker) (name : string) (rs : ReadSeeker)
  : gmap string ReadSeeker * option error :=
  match r !! name with
  | Some _ => (r, Some (ReadSeekerAlreadyExistsError name))
  | None => (<[name := rs]> r, None)
  end.

(** [Map] moves the reader it reads from: the value and the map afterwards. *)
Definition Map (r : gmap string ReadSeeker) (name : string)
  : string * gmap string ReadSeeker :=
  match r !! name with
  | Some rs =>
      let '(b, rs') := read_from_start rs in
      (match b with Some val => val | None => "" end, <[name := rs']> r)
  | None => ("", r)
  end.

End ReadSeekerMap.

(** [HTMLTemplate]: the map of readers and the cache of parsed templates. *)
Record HTMLTemplate : Type := mkHTMLTemplate {
  t_rs : gmap string ReadSeeker;
  t_rsm : gmap string Template
}.

Section Cache.

(** [places.NewTemplate], the parser of the template engine (package places,
    not among the sources): a parameter. *)
Variable NewTemplate : string -> Template.

(** [NewHTMLTemplate]: the loop over the readers parses what each reader
    yields, and leaves out a reader that fails. *)
Definition NewHTMLTemplate (rs : gmap string ReadSeeker) : HTMLTemplate :=
  mkHTMLTemplate
    ((fun r => (read_from_start r).2) <$> rs)
    (omap (fun r => NewTemplate <$> (read_from_start r).1) rs).

End Cache.

(** The method [NewMapper] of an [HTMLTemplate]. *)
Definition HTMLTemplate_NewMapper (t : HTMLTemplate) (m : gmap string Mapper)
  : HTMLTemplateMapper :=
  NewMapper (t_rsm t) m.

(** [templates.Replace] of the example program: the main template rendered
    with a new mapper over the bindings [m]. *)
Definition Replace (isPrintTable : Z -> bool) (GoSyntax : Mapper -> string)
  (fuel : nat) (mainTemplate : Template) (tt : HTMLTemplate)
  (bf : string) (m : gmap string Mapper) : result string :=
  ReplaceMapper (Map isPrintTable GoSyntax fuel) mainTemplate bf
    (HTMLTemplate_NewMapper tt m).

(** ** Conditions on strings and results *)

(** No byte of [s] satisfies [bad]. *)
Fixpoint free_of (bad : ascii -> bool) (s : string) : bool :=
  match s with
  | EmptyString => true
  | String c s' => negb (bad c) && free_of bad s'
  end.

(** The bytes HTML gives a meaning: the ampersand apart, which starts the
    references [EscapeString] writes. *)
Definition html_special (c : ascii) : bool :=
  Ascii.eqb c "<" || Ascii.eqb c ">" || Ascii.eqb c dquote || Ascii.eqb c "'".

(** The bytes [QueryEscape] writes: letters, digits, [-_.~], the plus sign and
    the percent sign. *)
Definition url_safe (c : ascii) : bool :=
  negb (url.shouldEscape c) || Ascii.eqb c "+" || Ascii.eqb c "%".

(** The bytes of ASCII. *)
Definition is_ascii (c : ascii) : bool := Z.of_N (strings.byte c) <? 0x80.

(** The hexadecimal digit for [d], lower case. *)
Definition hexdigit (d : Z) : string := strings.slice "0123456789abcdef" d (d + 1).

(** The escape sequences of the Go language for a byte of ASCII in an
    interpreted string literal, which is what the directive [js] is claimed to
    write: [\a \b \t \n \v \f \r] for the bytes 7 to 13, a backslash before
    the double quote and before the backslash, [\x] and two hexadecimal digits
    for every other control byte and for the byte 127, and every other byte as
    it is.  The table is written from the language specification, apart from
    [strconv.Quote], to compare the two. *)
Definition go_escape (c : ascii) : string :=
  let n := Z.of_N (strings.byte c) in
  match n with
  | 7 => "\a"
  | 8 => "\b"
  | 9 => "\t"
  | 10 => "\n"
  | 11 => "\v"
  | 12 => "\f"
  | 13 => "\r"
  | 34 => String strconv.backslash (str1 dquote)
  | 92 => String strconv.backslash (str1 strconv.backslash)
  | _ =>
      if (n <? 32) || (n =? 127) then "\x" +:+ hexdigit (n / 16) +:+ hexdigit (n mod 16)
      else str1 c
  end.

Fixpoint go_escape_string (s : string) : string :=
  match s with
  | EmptyString => ""
  | String c s' => go_escape c +:+ go_escape_string s'
  end.

(** [stable r r']: the result [r'], got with more fuel, is [r] unless [r] ran
    out of fuel. *)
Definition stable {A} (r r' : result A) : Prop :=
  r = OutOfFuel \/ r' = r.

(** ** What a call leaves of the context *)

(** [frame h h']: from [h] to [h'] the cache, the bindings, the depth counter
    and the length of [indexes] are the same, and [indexes] itself is the same
    when the depth counter of [h] is the length of its [indexes] (as it is in a
    new mapper). *)
Definition frame (h h' : HTMLTemplateMapper) : Prop :=
  h_rsm h' = h_rsm h /\ h_m h' = h_m h /\ h_depth h' = h_depth h /\
  length (h_indexes h') = length (h_indexes h) /\
  (h_depth h = Z.of_nat (length (h_indexes h)) -> h_indexes h' = h_indexes h).

(** A computation keeps the frame when every run of it that returns does. *)
Definition keeps {A} (c : M A) : Prop :=
  forall h a h', c h = Ok a h' -> frame h h'.

(** The two conditions the loop of an [each] branch moves between, for a
    branch entered in the context [h0].  [live]: the depth counter is one up,
    [indexes] is one longer, and below its last entry it is as in [h0] when the
    depth counter of [h0] was the length of its [indexes]. *)
Definition live (h0 h : HTMLTemplateMapper) : Prop :=
  h_rsm h = h_rsm h0 /\ h_m h = h_m h0 /\ h_depth h = h_depth h0 + 1 /\
  length (h_indexes h) = S (length (h_indexes h0)) /\
  (h_depth h0 = Z.of_nat (length (h_indexes h0)) ->
   removelast (h_indexes h) = h_indexes h0).

(** [dead]: a leaf was met under a sub-path, and the branch has set [indexes]
    to the empty slice and the depth counter to zero. *)
Definition dead (h0 : HTMLTemplateMapper) (sub : string) (h : HTMLTemplateMapper) : Prop :=
  h_rsm h = h_rsm h0 /\ h_m h = h_m h0 /\ h_indexes h = [] /\ h_depth h = 0 /\
  sub <> "".

(** The context with its preferred mapper set to [nil]. *)
Definition no_preferred (h : HTMLTemplateMapper) : HTMLTemplateMapper :=
  mkMapper (h_rsm h) (h_m h) None (h_indexes h) (h_depth h).

(** The rows [row i], [row (i + 1)], ... of [n] elements, one after the other. *)
Fixpoint rows (row : Z -> string) (n : nat) (i : Z) : string :=
  match n with
  | O => ""
  | S n' => row i +:+ rows row n' (i + 1)
  end.

(** [fades h h']: the preferred mapper of [h'] is that of [h], or [nil]. *)
Definition fades (h h' : HTMLTemplateMapper) : Prop :=
  h_preferred h' = h_preferred h \/ h_preferred h' = None.

(** A computation lets the preferred mapper fade when every run of it that
    returns does. *)
Definition fading {A} (c : M A) : Prop :=
  forall h a h', c h = Ok a h' -> fades h h'.

(** * Properties *)

(** ** Strings *)

Lemma IndexByte_range s c :
  strings.IndexByte s c = -1 \/ 0 <= strings.IndexByte s c < Z.of_nat (String.length s).
Proof.
  induction s as [|b s IH]; simpl; [by left|].
  destruct (Ascii.eqb b c); [right; lia|].
  destruct IH as [->| IH]; [by left|].
  destruct (Z.eqb_spec (strings.IndexByte s c) (-1)); [lia|right; lia].
Qed.

Lemma IndexByte_app s c t :
  strings.IndexByte s c = -1 ->
  strings.IndexByte (s +:+ String c t) c = Z.of_nat (String.length s).
Proof.
  induction s as [|b s IH]; simpl.
  - intros _. by rewrite Ascii.eqb_refl.
  - destruct (Ascii.eqb b c); [discriminate|].
    destruct (Z.eqb_spec (strings.IndexByte s c) (-1)) as [E|E].
    + intros _. rewrite (IH E).
      destruct (Z.eqb_spec (Z.of_nat (String.length s)) (-1)); lia.
    + pose proof (IndexByte_range s c). lia.
Qed.

Lemma substring_app_l s t :
  String.substring 0 (String.length s) (s +:+ t) = s.
Proof.
  induction s as [|b s IH]; simpl; [by destruct t|by rewrite IH].
Qed.

Lemma substring_all s : String.substring 0 (String.length s) s = s.
Proof. induction s as [|b s IH]; simpl; [done|by rewrite IH]. Qed.

Lemma substring_app_r s t :
  String.substring (String.length s) (String.length t) (s +:+ t) = t.
Proof. induction s as [|b s IH]; simpl; [apply substring_all|done]. Qed.

Lemma string_length_app s t :
  String.length (s +:+ t) = (String.length s + String.length t)%nat.
Proof. induction s as [|b s IH]; simpl; [done|by rewrite IH]. Qed.

Lemma all_lower_no_space p :
  Registry.all_lower p = true -> strings.IndexByte p " " = -1.
Proof.
  induction p as [|b p IH]; simpl; [done|].
  intros [Hb Hp]%andb_prop. rewrite (IH Hp). simpl.
  destruct (Ascii.eqb_spec b " ") as [->|_]; [discriminate Hb|done].
Qed.

Lemma TrimSpace_space s : strings.TrimSpace (String " " s) = strings.TrimSpace s.
Proof. reflexivity. Qed.

(** What [split] returns for a marker, a prefix without a space, a space and
    more text: the prefix, and the text trimmed. *)
Lemma split_prefixed p name :
  strings.IndexByte p " " = -1 ->
  split (String "-" (p +:+ String " " name)) = (p, strings.TrimSpace name).
Proof.
  intros Hsp. unfold split.
  assert (Hne : String.eqb (String "-" (p +:+ String " " name)) "-" = false)
    by (by destruct p).
  rewrite Hne. cbn [String.eqb orb Ascii.eqb Bool.eqb negb andb].
  assert (Hidx : strings.IndexByte (String "-" (p +:+ String " " name)) " "
                 = Z.of_nat (String.length p) + 1).
  { cbn [strings.IndexByte]. rewrite (IndexByte_app _ _ _ Hsp).
    change (Ascii.eqb "-" " ") with false. cbv iota.
    destruct (Z.eqb_spec (Z.of_nat (String.length p)) (-1)); lia. }
  rewrite Hidx.
  destruct (Z.eqb_spec (Z.of_nat (String.length p) + 1) (-1)); [lia|].
  f_equal.
  - unfold strings.slice.
    replace (Z.to_nat (Z.of_nat (String.length p) + 1 - 1)) with (String.length p) by lia.
    change (Z.to_nat 1) with 1%nat. cbn [String.substring].
    apply substring_app_l.
  - unfold strings.slice_from, strings.slice.
    replace (Z.to_nat (Z.of_nat (String.length p) + 1)) with (S (String.length p)) by lia.
    cbn [String.substring String.length]. rewrite string_length_app. cbn [String.length].
    replace (Z.to_nat _) with (String.length (String " " name)) by (cbn [String.length]; lia).
    rewrite substring_app_r. apply TrimSpace_space.
Qed.

(** What [split] returns for a marker and a prefix without a space. *)
Lemma split_prefix_only p :
  p <> "" -> strings.IndexByte p " " = -1 -> split (String "-" p) = (p, "").
Proof.
  intros Hp Hsp. unfold split.
  assert (Hne : String.eqb (String "-" p) "-" = false) by (by destruct p).
  rewrite Hne. cbn [String.eqb orb Ascii.eqb Bool.eqb negb andb].
  cbn [strings.IndexByte]. change (Ascii.eqb "-" " ") with false. cbv iota zeta.
  rewrite Hsp. cbn [Z.eqb]. f_equal.
  unfold strings.slice_from, strings.slice. cbn [String.length].
  change (Z.to_nat 1) with 1%nat. cbn [String.substring].
  replace (Z.to_nat _) with (String.length p) by lia. apply substring_all.
Qed.

(** The grammar of [split], with the space byte as the one separator: the
    empty input and the lone marker give two empty strings; without a marker
    the input is the rest; after the marker, the text up to the first space is
    the prefix and the text after it, trimmed, the rest; without a space all
    the text after the marker is the prefix. *)
Theorem split_grammar_space :
  (split "" = ("", "") /\ split "-" = ("", "")) /\
  (forall c s, c <> "-"%char -> split (String c s) = ("", String c s)) /\
  (forall p, p <> "" -> strings.IndexByte p " " = -1 ->
     split ("-" +:+ p) = (p, "")) /\
  (forall p r, strings.IndexByte p " " = -1 ->
     split ("-" +:+ p +:+ " " +:+ r) = (p, strings.TrimSpace r)).
Proof.
  split; [by split|]. split; [|split].
  - intros c s Hc. unfold split. cbn [String.eqb orb].
    destruct (Ascii.eqb_spec c "-") as [|_]; [done|].
    cbn [negb]. by destruct s.
  - apply split_prefix_only.
  - apply split_prefixed.
Qed.

(** ** The registry *)

Lemma prefixRule_nonempty p : Registry.prefixRule p = true -> p <> "".
Proof. by destruct p. Qed.

Lemma prefixRule_no_space p :
  Registry.prefixRule p = true -> strings.IndexByte p " " = -1.
Proof.
  unfold Registry.prefixRule. intros [_ H]%andb_prop. by apply all_lower_no_space.
Qed.

(** Every key of a registry built by [Add] is the empty prefix or matches the
    rule. *)
Lemma reachable_keys mp :
  Registry.reachable mp ->
  forall p v, mp !! p = Some v -> p = "" \/ Registry.prefixRule p = true.
Proof.
  induction 1 as [|mp prefix mapper _ IH]; intros p v.
  - unfold Registry.New. by rewrite lookup_empty.
  - unfold Registry.Add.
    destruct (String.eqb_spec prefix "") as [->|Hne]; simpl.
    + destruct (mp !! "") eqn:E; simpl; [apply IH|].
      destruct (decide (p = "")) as [->|Hp]; [by left|].
      rewrite lookup_insert_ne; [apply IH|done].
    + destruct (Registry.prefixRule prefix) eqn:Hrule; simpl; [|apply IH].
      destruct (mp !! prefix) eqn:E; simpl; [apply IH|].
      destruct (decide (p = prefix)) as [->|Hp]; [by right|].
      rewrite lookup_insert_ne; [apply IH|done].
Qed.

(** C4 as stated fails: [Map] hands the provider the name trimmed.  With the
    provider [Self ""], which returns its argument, the name [" x"] comes back
    as ["x"]. *)
Lemma add_then_map_trims_name :
  let r := Registry.Add Registry.New "p" (Self "") in
  r.2 = None /\
  Registry.Map r.1 ("-" +:+ "p" +:+ " " +:+ " x") <> Mapper_Map (Self "") " x".
Proof. split; [reflexivity|]. vm_compute. discriminate. Qed.

(** C4, amended: on a registry where the valid prefix [p] is not registered,
    [Add p v] succeeds, and afterwards [Map ("-" + p + " " + name)] is
    [v.Map] of the name with its leading and trailing white space trimmed; it
    is [v.Map name] when trimming leaves the name as it is. *)
Theorem add_then_map (mp : gmap string Mapper) (p : string) (v : Mapper) (name : string) :
  Registry.prefixRule p = true ->
  mp !! p = None ->
  let r := Registry.Add mp p v in
  r.2 = None /\
  Registry.Map r.1 ("-" +:+ p +:+ " " +:+ name)
    = Mapper_Map v (strings.TrimSpace name) /\
  (strings.TrimSpace name = name ->
   Registry.Map r.1 ("-" +:+ p +:+ " " +:+ name) = Mapper_Map v name).
Proof.
  intros Hrule Hfree. unfold Registry.Add.
  rewrite Hrule, Hfree, andb_false_r. cbn zeta. cbn [fst snd].
  assert (E : Registry.Map (<[p:=v]> mp) ("-" +:+ p +:+ " " +:+ name)
              = Mapper_Map v (strings.TrimSpace name)).
  { unfold Registry.Map.
    change ("-" +:+ p +:+ " " +:+ name) with (String "-" (p +:+ String " " name)).
    rewrite split_prefixed by auto using prefixRule_no_space.
    destruct (String.eqb_spec p "") as [->|_]; [discriminate Hrule|].
    cbn [andb]. by rewrite lookup_insert_eq. }
  split; [done|]. split; [done|]. intros Hn. by rewrite E, Hn.
Qed.

Lemma add_then_map_witness :
  Registry.Map (Registry.Add Registry.New "user" (Self "u:")).1
    ("-" +:+ "user" +:+ " " +:+ " name ")
  = Mapper_Map (Self "u:") (strings.TrimSpace " name ").
Proof.
  exact (proj1 (proj2 (add_then_map Registry.New "user" (Self "u:") " name "
                         eq_refl eq_refl))).
Defined.

(** C7: on a registry built by [Add] that holds [v1] for the prefix [p], a
    second [Add p v2] returns the already-exists error and leaves the registry
    as it is, so [Map] still answers with [v1] for inputs of prefix [p]; and
    [Add] with a non-empty prefix that does not match the rule returns the
    invalid-prefix error and leaves the registry as it is. *)
Theorem add_twice_or_invalid (mp : gmap string Mapper) (p : string) (v1 v2 : Mapper) :
  Registry.reachable mp ->
  (mp !! p = Some v1 ->
   Registry.Add mp p v2 = (mp, Some (Registry.MapperAlreadyExistsError p)) /\
   forall input rest, split input = (p, rest) -> (p, rest) <> ("", "") ->
     Registry.Map (Registry.Add mp p v2).1 input = Mapper_Map v1 rest) /\
  (p <> "" -> Registry.prefixRule p = false ->
   Registry.Add mp p v2 = (mp, Some Registry.ErrInvalidPrefix)).
Proof.
  intros Hreach. split.
  - intros Hin.
    assert (E : Registry.Add mp p v2 = (mp, Some (Registry.MapperAlreadyExistsError p))).
    { unfold Registry.Add. rewrite Hin.
      destruct (reachable_keys mp Hreach p v1 Hin) as [-> | Hr]; [done|rewrite Hr].
      by rewrite andb_false_r. }
    split; [done|]. intros input rest Hsplit Hne. rewrite E. cbn [fst].
    unfold Registry.Map. rewrite Hsplit, Hin.
    destruct (String.eqb_spec p "") as [->|_]; [|done].
    destruct (String.eqb_spec rest "") as [->|_]; [done|done].
  - intros Hne Hrule. unfold Registry.Add. rewrite Hrule.
    by destruct (String.eqb_spec p "").
Qed.

Lemma add_twice_or_invalid_witness :
  Registry.Add (Registry.Add Registry.New "user" (Self "u:")).1 "user" Empty
  = ((Registry.Add Registry.New "user" (Self "u:")).1,
     Some (Registry.MapperAlreadyExistsError "user")) /\
  Registry.Add (Registry.Add Registry.New "user" (Self "u:")).1 "User" Empty
  = ((Registry.Add Registry.New "user" (Self "u:")).1, Some Registry.ErrInvalidPrefix).
Proof.
  split.
  - refine (proj1 (proj1 (add_twice_or_invalid _ "user" (Self "u:") Empty _) _)).
    + apply Registry.reach_Add, Registry.reach_New.
    + vm_compute. reflexivity.
  - refine (proj2 (add_twice_or_invalid _ "User" Empty Empty _) _ _).
    + apply Registry.reach_Add, Registry.reach_New.
    + discriminate.
    + reflexivity.
Defined.

(** ** Escaping *)

Lemma append_cons b (s t : string) : String b s +:+ t = String b (s +:+ t).
Proof. reflexivity. Qed.

Lemma append_nil_r (s : string) : s +:+ "" = s.
Proof. induction s as [|b s IH]; [done|by rewrite append_cons, IH]. Qed.

Lemma append_assoc (s t u : string) : (s +:+ t) +:+ u = s +:+ (t +:+ u).
Proof. induction s as [|b s IH]; [done|by rewrite !append_cons, IH]. Qed.

Lemma unescape_escape_byte c t :
  html.unescape_go 0 (html.escape_byte c +:+ t) = String c (html.unescape_go 0 t).
Proof. destruct c as [[] [] [] [] [] [] [] []]; reflexivity. Qed.

(** Unescaping undoes [html.EscapeString]. *)
Lemma UnescapeString_EscapeString s :
  html.UnescapeString (html.EscapeString s) = s.
Proof.
  unfold html.UnescapeString.
  induction s as [|c s IH]; [done|].
  cbn [html.EscapeString]. rewrite unescape_escape_byte. by f_equal.
Qed.

Lemma QueryUnescape_escape_byte c t :
  url.QueryUnescape (url.escape_byte c +:+ t)
  = match url.QueryUnescape t with
    | Some r => Some (String c r)
    | None => None
    end.
Proof. destruct c as [[] [] [] [] [] [] [] []]; reflexivity. Qed.

(** Percent-decoding undoes [url.QueryEscape]. *)
Lemma QueryUnescape_QueryEscape s :
  url.QueryUnescape (url.QueryEscape s) = Some s.
Proof.
  induction s as [|c s IH]; [done|].
  cbn [url.QueryEscape]. by rewrite QueryUnescape_escape_byte, IH.
Qed.

Lemma quote_go_closes table skip s :
  exists body, strconv.quote_go table skip s = body +:+ str1 dquote.
Proof.
  revert skip. induction s as [|c s IH]; intros skip.
  - by exists "".
  - cbn [strconv.quote_go]. destruct skip as [|k]; [|apply IH].
    destruct (utf8.DecodeRuneInString (String c s)) as [r width].
    destruct (IH (Nat.pred width)) as [body ->].
    eexists. symmetry. apply append_assoc.
Qed.

(** The output of [strconv.Quote] stands between two double quotes. *)
Lemma Quote_enclosed table s :
  exists body, strconv.Quote table s = String dquote (body +:+ str1 dquote).
Proof.
  destruct (quote_go_closes table 0 s) as [body E].
  exists body. unfold strconv.Quote. by rewrite E.
Qed.

(** On a byte of ASCII, [strconv.Quote] writes the escape sequence of the
    language. *)
Lemma quote_go_ascii table c s :
  is_ascii c = true ->
  strconv.quote_go table 0 (String c s) = go_escape c +:+ strconv.quote_go table 0 s.
Proof.
  destruct c as [[] [] [] [] [] [] [] []]; intros H;
    first [reflexivity | by vm_compute in H].
Qed.

Lemma Quote_ascii table s :
  free_of (fun c => negb (is_ascii c)) s = true ->
  strconv.Quote table s = String dquote (go_escape_string s +:+ str1 dquote).
Proof.
  unfold strconv.Quote. intros H. f_equal.
  induction s as [|c s IH]; [reflexivity|].
  cbn [free_of] in H. apply andb_prop in H as [Hc Hs]. apply negb_true_iff in Hc.
  apply negb_false_iff in Hc.
  rewrite quote_go_ascii by done. cbn [go_escape_string].
  by rewrite IH, append_assoc.
Qed.

(** A byte that is not ASCII and stands alone begins no rune: [strconv.Quote]
    writes it as [\x] and its two hexadecimal digits. *)
Lemma Quote_lone_byte table c :
  is_ascii c = false ->
  strconv.Quote table (str1 c)
  = String dquote
      ("\x" +:+ hexdigit (Z.of_N (strings.byte c) / 16)
            +:+ hexdigit (Z.of_N (strings.byte c) mod 16) +:+ str1 dquote).
Proof.
  destruct c as [[] [] [] [] [] [] [] []]; intros H;
    first [reflexivity | by vm_compute in H].
Qed.

(** ** The template mapper *)

Section MapperFacts.

Variable isPrintTable : Z -> bool.
Variable GoSyntax : Mapper -> string.

(** [Map] and [_map] with the two tables. *)
Local Abbreviation hMap := (Map isPrintTable GoSyntax).
Local Abbreviation h_map := (_map isPrintTable GoSyntax).

Lemma Map_S fuel input h :
  hMap (S fuel) input h = Map_body isPrintTable GoSyntax (hMap fuel) input h.
Proof. reflexivity. Qed.

(** Without a preferred mapper, [Map] is [_map]. *)
Lemma Map_no_preferred fuel input h :
  h_preferred h = None -> hMap (S fuel) input h = h_map (hMap fuel) input h.
Proof. intros E. rewrite Map_S. unfold Map_body, bind, get. by rewrite E. Qed.

(** C5: with a preferred mapper [p] on the resolution context, [Map input]
    returns [p.Map input] as it is, and leaves the context as it is, when that
    is not the empty string; when it is, [Map] returns what the dispatch [_map]
    returns for the input. *)
Theorem Map_preferred (fuel : nat) (input : string) (h : HTMLTemplateMapper) (p : Mapper) :
  h_preferred h = Some p ->
  (Mapper_Map p input <> "" -> hMap (S fuel) input h = Ok (Mapper_Map p input) h) /\
  (Mapper_Map p input = "" -> hMap (S fuel) input h = h_map (hMap fuel) input h).
Proof.
  intros E. rewrite Map_S. unfold Map_body, bind, get. rewrite E.
  destruct (String.eqb_spec (Mapper_Map p input) "") as [Hout|Hout]; cbn [negb].
  - by split.
  - split; [reflexivity|done].
Qed.


(** C10: for a placeholder with the directive [js] whose rest is bound, the
    dispatch returns [strconv.Quote] of what the bound mapper returns for the
    rest, which is what [fmt] writes for [%#v]: the value between two double
    quotes, escaped as Go escapes a string literal.  For a value of ASCII the
    output is, byte for byte, the escape sequences of the language: [\n] for
    the line feed, a backslash before a double quote and before a backslash,
    [\x] and two hexadecimal digits for a control byte without a name, every
    other byte as it is.  A byte that is not ASCII and begins no rune is
    written as [\x] and two hexadecimal digits; a rune that is not printable
    as [\u] and four hexadecimal digits, or [\U] and eight; a printable rune
    as it is.  The bytes of [</script>], which an escaper for JavaScript would
    rewrite, stay as they are. *)
Theorem js_is_go_quote (rec : string -> M string) (input rest : string)
    (h : HTMLTemplateMapper) (mp : Mapper) :
  split input = ("js", rest) ->
  h_m h !! rest = Some mp ->
  h_map rec input h = Ok (strconv.Quote isPrintTable (Mapper_Map mp rest)) h /\
  (exists body, strconv.Quote isPrintTable (Mapper_Map mp rest)
                = String dquote (body +:+ str1 dquote)) /\
  (free_of (fun c => negb (is_ascii c)) (Mapper_Map mp rest) = true ->
   h_map rec input h
   = Ok (String dquote (go_escape_string (Mapper_Map mp rest) +:+ str1 dquote)) h) /\
  (forall c, is_ascii c = false -> Mapper_Map mp rest = str1 c ->
   h_map rec input h
   = Ok (String dquote
           ("\x" +:+ hexdigit (Z.of_N (strings.byte c) / 16)
                 +:+ hexdigit (Z.of_N (strings.byte c) mod 16) +:+ str1 dquote)) h) /\
  strconv.Quote isPrintTable (String (utf8.chr 0xC3) (str1 (utf8.chr 0xA9)))
  = String dquote (String (utf8.chr 0xC3) (String (utf8.chr 0xA9) (str1 dquote))) /\
  strconv.Quote isPrintTable (String (utf8.chr 0xC2) (str1 (utf8.chr 0xAD)))
  = String dquote ("\u00ad" +:+ str1 dquote) /\
  strconv.Quote isPrintTable
    (String (utf8.chr 0xE2) (String (utf8.chr 0x80) (str1 (utf8.chr 0xA8))))
  = (if isPrintTable 0x2028
     then String dquote
            (String (utf8.chr 0xE2) (String (utf8.chr 0x80) (String (utf8.chr 0xA8)
               (str1 dquote))))
     else String dquote ("\u2028" +:+ str1 dquote)) /\
  strconv.Quote isPrintTable
    (String (utf8.chr 0xF0) (String (utf8.chr 0x9F) (String (utf8.chr 0x98)
       (str1 (utf8.chr 0x80)))))
  = (if isPrintTable 0x1F600
     then String dquote
            (String (utf8.chr 0xF0) (String (utf8.chr 0x9F) (String (utf8.chr 0x98)
               (String (utf8.chr 0x80) (str1 dquote)))))
     else String dquote ("\U0001f600" +:+ str1 dquote)) /\
  strconv.Quote isPrintTable "</script>" = String dquote ("</script>" +:+ str1 dquote).
Proof.
  intros Hsplit Hbound.
  assert (E : h_map rec input h = Ok (strconv.Quote isPrintTable (Mapper_Map mp rest)) h).
  { unfold _map. rewrite Hsplit. cbn [String.eqb Ascii.eqb Bool.eqb].
    unfold bind, get. by rewrite Hbound. }
  split; [exact E|]. split; [apply Quote_enclosed|].
  split; [intros Hascii; by rewrite E, Quote_ascii|].
  split; [intros c Hc Hval; by rewrite E, Hval, Quote_lone_byte|].
  split; [reflexivity|]. split; [reflexivity|].
  split; [vm_compute; by destruct (isPrintTable _)|].
  split; [vm_compute; by destruct (isPrintTable _)|].
  reflexivity.
Qed.

End MapperFacts.

Lemma Map_preferred_witness :
  let p := Leaf (Demo.User_Map (Demo.mkUser "Donald" "Duck" "1" [])) in
  let h := mkMapper Demo.cache Demo.bindings (Some p) [] 0 in
  h_preferred h = Some p /\
  Map (fun _ => true) (fun _ => "") 1 "firstname" h = Ok "Donald" h /\
  Map (fun _ => true) (fun _ => "") 1 "myclass" h
  = _map (fun _ => true) (fun _ => "") (Map (fun _ => true) (fun _ => "") 0) "myclass" h.
Proof.
  intros p h. split; [reflexivity|]. split.
  - apply (proj1 (Map_preferred (fun _ => true) (fun _ => "") 0 "firstname" h p eq_refl)).
    discriminate.
  - apply (proj2 (Map_preferred (fun _ => true) (fun _ => "") 0 "myclass" h p eq_refl)).
    reflexivity.
Defined.


Lemma js_is_go_quote_witness :
  let v := "a" +:+ str1 dquote +:+ str1 strconv.backslash +:+ str1 newline +:+ "<c>" in
  let h := NewMapper Demo.cache {[ "v" := String_ v ]} in
  split "-js v" = ("js", "v") /\
  h_m h !! "v" = Some (String_ v) /\
  _map (fun _ => true) (fun _ => "") (fun _ => ret "") "-js v" h
  = Ok (String dquote
          ("a" +:+ String strconv.backslash (str1 dquote)
               +:+ String strconv.backslash (str1 strconv.backslash)
               +:+ "\n<c>" +:+ str1 dquote)) h.
Proof.
  intros v h. split; [reflexivity|].
  assert (B : h_m h !! "v" = Some (String_ v)) by (vm_compute; reflexivity).
  split; [exact B|].
  exact (proj1 (proj2 (proj2 (js_is_go_quote (fun _ => true) (fun _ => "")
                          (fun _ => ret "") "-js v" "v" h (String_ v) eq_refl B)))
           eq_refl).
Defined.

(** ** The dispatch on concrete placeholders *)

(** C3, where the code leaves its documentation: [split] looks for the space
    byte alone, so a tab after the prefix is no separator and stays in the
    prefix, while [strings.TrimSpace], which [split] applies to the rest,
    counts the tab as white space. *)
Theorem split_tab_in_prefix :
  split ("-a" +:+ str1 tab +:+ "b") = ("a" +:+ str1 tab +:+ "b", "") /\
  split "-a b" = ("a", "b") /\
  strings.TrimSpace (str1 tab +:+ "b") = "b".
Proof. repeat split; reflexivity. Qed.

(** C1, where the code leaves the claim: after the loop over the elements the
    [each] branch calls [replaceVars] on the same collection, so every element
    is rendered a second time.  Two users give four rows. *)
Theorem each_renders_elements_twice (isPrintTable : Z -> bool) (GoSyntax : Mapper -> string) :
  Map isPrintTable GoSyntax 2 "-each users row" (NewMapper Demo.cache Demo.bindings)
  = Ok "<li>Donald</li><li>Mickey</li><li>Donald</li><li>Mickey</li>"
       (NewMapper Demo.cache Demo.bindings).
Proof. vm_compute. reflexivity. Qed.

(** C2, where the code leaves the claim: an [each] placeholder without a
    template name panics on the index expression [s[1]], whatever the bindings
    and the cache hold; an [each] over leaves with a sub-path panics on the
    slice expression that pops [indexes]; and a template that requires itself
    never returns. *)
Theorem Map_can_panic (isPrintTable : Z -> bool) (GoSyntax : Mapper -> string) (fuel : nat)
    (rsm : gmap string Template) (m : gmap string Mapper) :
  Map isPrintTable GoSyntax (S fuel) "-each users" (NewMapper rsm m)
    = Panic index_out_of_range /\
  Map isPrintTable GoSyntax (S (S fuel)) "-each users.x row"
      (NewMapper Demo.cache {[ "users" := Demo.Users [Demo.mkUser "Donald" "Duck" "1" []] ]})
    = Panic slice_out_of_range /\
  Map isPrintTable GoSyntax fuel "-require a"
      (NewMapper {[ "a" := [Place "-require a"] ]} m)
    = OutOfFuel.
Proof.
  split; [reflexivity|split].
  - vm_compute. reflexivity.
  - induction fuel as [|fuel IH]; [reflexivity|].
    cbn [Map]. unfold Map_body, bind, get. cbn [h_preferred NewMapper].
    unfold _map. change (split "-require a") with ("require", "a").
    cbn [String.eqb Ascii.eqb Bool.eqb]. unfold require, bind, get.
    cbn [h_rsm NewMapper]. rewrite lookup_singleton_eq.
    cbn [ReplaceMapper]. unfold bind. by rewrite IH.
Qed.

(** C6, where the code leaves the claim: an [each] placeholder whose binding
    name is not bound aborts the render when it names no template.  The index
    expression [s[1]] of line 463 is evaluated before the bindings are looked
    up, and panics when the rest holds no space; with a template name the same
    unbound name gives the empty string and leaves the context as it is, which
    is what the claim says of every [each] placeholder. *)
Theorem each_unbound_can_abort (isPrintTable : Z -> bool) (GoSyntax : Mapper -> string)
    (fuel : nat) (rsm : gmap string Template) (m : gmap string Mapper) :
  m !! "missing" = None ->
  Map isPrintTable GoSyntax (S fuel) "-each missing" (NewMapper rsm m)
    = Panic index_out_of_range /\
  Map isPrintTable GoSyntax (S fuel) "-each missing row" (NewMapper rsm m)
    = Ok "" (NewMapper rsm m).
Proof.
  intros Hunbound. split; [reflexivity|].
  rewrite Map_no_preferred by reflexivity. unfold _map.
  change (split "-each missing row") with ("each", "missing row").
  cbn [String.eqb Ascii.eqb Bool.eqb].
  change (each_args "missing row") with (Some ("missing", "", "row")).
  unfold bind, get. cbn [h_m NewMapper]. by rewrite Hunbound.
Qed.

Lemma each_unbound_can_abort_witness :
  Demo.bindings !! "missing" = None /\
  Map (fun _ => true) (fun _ => "") 5 "-each missing" (NewMapper Demo.cache Demo.bindings)
    = Panic index_out_of_range /\
  Map (fun _ => true) (fun _ => "") 5 "-each missing row"
      (NewMapper Demo.cache Demo.bindings)
    = Ok "" (NewMapper Demo.cache Demo.bindings).
Proof.
  assert (U : Demo.bindings !! "missing" = None) by (vm_compute; reflexivity).
  split; [exact U|].
  exact (each_unbound_can_abort (fun _ => true) (fun _ => "") 4 Demo.cache Demo.bindings U).
Defined.

(** C8 as stated fails for the directive [html], which returns the value as it
    is: the value [&amp;] comes out as [&amp;], and unescaping that gives [&]. *)
Lemma html_directive_is_not_escaped :
  let h := NewMapper ∅ {[ "v" := String_ "&amp;" ]} in
  Map (fun _ => true) (fun _ => "") 1 "-html v" h = Ok "&amp;" h /\
  html.UnescapeString "&amp;" <> Mapper_Map (String_ "&amp;") "v".
Proof. split; [vm_compute; reflexivity|vm_compute; discriminate]. Qed.

(** C8, amended: for a bound value, unescaping the output of the dispatch
    without a directive gives the value back, and percent-decoding the output
    of the directive [url] gives the value back; the directive [html] returns
    the value as it is, not escaped, and so does the directive [raw]. *)
Theorem escaping_round_trip (isPrintTable : Z -> bool) (GoSyntax : Mapper -> string)
    (rec : string -> M string) (input rest : string) (h : HTMLTemplateMapper) (mp : Mapper) :
  h_m h !! rest = Some mp ->
  (split input = ("", rest) ->
   exists out, _map isPrintTable GoSyntax rec input h = Ok out h /\
               html.UnescapeString out = Mapper_Map mp rest) /\
  (split input = ("url", rest) ->
   exists out, _map isPrintTable GoSyntax rec input h = Ok out h /\
               url.QueryUnescape out = Some (Mapper_Map mp rest)) /\
  (split input = ("html", rest) ->
   _map isPrintTable GoSyntax rec input h = Ok (Mapper_Map mp rest) h) /\
  (split input = ("raw", rest) ->
   _map isPrintTable GoSyntax rec input h = Ok (Mapper_Map mp rest) h).
Proof.
  intros Hbound. repeat split; intros Hsplit; unfold _map; rewrite Hsplit;
    cbn [String.eqb Ascii.eqb Bool.eqb]; unfold bind, get; rewrite Hbound.
  - eexists; split; [reflexivity|apply UnescapeString_EscapeString].
  - eexists; split; [reflexivity|apply QueryUnescape_QueryEscape].
  - reflexivity.
  - reflexivity.
Qed.

Lemma escaping_round_trip_witness :
  let h := NewMapper ∅ {[ "name" := String_ "Donald & Sons" ]} in
  h_m h !! "name" = Some (String_ "Donald & Sons") /\
  (exists out,
     _map (fun _ => true) (fun _ => "") (fun _ => ret "") "name" h = Ok out h /\
     html.UnescapeString out = "Donald & Sons") /\
  (exists out,
     _map (fun _ => true) (fun _ => "") (fun _ => ret "") "-url name" h = Ok out h /\
     url.QueryUnescape out = Some "Donald & Sons") /\
  _map (fun _ => true) (fun _ => "") (fun _ => ret "") "-html name" h
  = Ok "Donald & Sons" h /\
  _map (fun _ => true) (fun _ => "") (fun _ => ret "") "-raw name" h
  = Ok "Donald & Sons" h.
Proof.
  intros h.
  assert (B : h_m h !! "name" = Some (String_ "Donald & Sons"))
    by (vm_compute; reflexivity).
  split; [exact B|]. split; [|split; [|split]].
  - exact (proj1 (escaping_round_trip (fun _ => true) (fun _ => "") (fun _ => ret "")
                    "name" "name" h (String_ "Donald & Sons") B) eq_refl).
  - exact (proj1 (proj2 (escaping_round_trip (fun _ => true) (fun _ => "") (fun _ => ret "")
                    "-url name" "name" h (String_ "Donald & Sons") B)) eq_refl).
  - exact (proj1 (proj2 (proj2 (escaping_round_trip (fun _ => true) (fun _ => "")
                    (fun _ => ret "") "-html name" "name" h (String_ "Donald & Sons") B)))
             eq_refl).
  - exact (proj2 (proj2 (proj2 (escaping_round_trip (fun _ => true) (fun _ => "")
                    (fun _ => ret "") "-raw name" "name" h (String_ "Donald & Sons") B)))
             eq_refl).
Defined.

(** ** The frame of a dispatch *)

Lemma frame_refl h : frame h h.
Proof. by unfold frame. Qed.

Lemma frame_trans h1 h2 h3 : frame h1 h2 -> frame h2 h3 -> frame h1 h3.
Proof.
  unfold frame. intros (R1 & M1 & D1 & L1 & I1) (R2 & M2 & D2 & L2 & I2).
  repeat split; try congruence.
  intros Hinv. rewrite <- (I1 Hinv). apply I2. congruence.
Qed.

Lemma bind_Ok {A B} (c : M A) (k : A -> M B) h b h' :
  bind c k h = Ok b h' -> exists a h1, c h = Ok a h1 /\ k a h1 = Ok b h'.
Proof. unfold bind. destruct (c h) as [a h1| |]; [eauto|done|done]. Qed.

Lemma keeps_ret {A} (a : A) : keeps (ret a).
Proof. unfold keeps, ret. intros h a' h' [= _ <-]. apply frame_refl. Qed.

Lemma keeps_bind {A B} (c : M A) (k : A -> M B) :
  keeps c -> (forall a, keeps (k a)) -> keeps (bind c k).
Proof.
  intros Hc Hk h b h' (a & h1 & E1 & E2)%bind_Ok.
  eapply frame_trans; [by eapply Hc|by eapply Hk].
Qed.

Lemma keeps_get : keeps get.
Proof. unfold keeps, get. intros h a h' [= _ <-]. apply frame_refl. Qed.

Lemma keeps_set_preferred p : keeps (set_preferred p).
Proof. unfold keeps, set_preferred, modify. intros h a h' [= _ <-]. by unfold frame; cbn. Qed.

Lemma keeps_panic {A} msg : keeps (@panic A msg).
Proof. unfold keeps, panic. intros h a h' [=]. Qed.

Lemma for_loop_inv (I : HTMLTemplateMapper -> Prop) (body : Z -> string -> M string) :
  (forall i bf h a h', I h -> body i bf h = Ok a h' -> I h') ->
  forall n i bf h a h', I h -> for_loop body n i bf h = Ok a h' -> I h'.
Proof.
  intros Hbody n. induction n as [|n IH]; intros i bf h a h' Hh; cbn [for_loop].
  - unfold ret. by intros [= _ <-].
  - intros (bf' & h1 & E1 & E2)%bind_Ok. eauto.
Qed.

Lemma keeps_for_loop body n i bf :
  (forall i bf, keeps (body i bf)) -> keeps (for_loop body n i bf).
Proof.
  intros Hbody. revert i bf. induction n as [|n IH]; intros i bf; cbn [for_loop].
  - apply keeps_ret.
  - apply keeps_bind; [apply Hbody|intros bf'; apply IH].
Qed.

Lemma removelast_insert_last {A} (l : list A) (v : A) :
  removelast (<[Nat.pred (length l) := v]> l) = removelast l.
Proof.
  destruct l as [|x l _] using rev_ind; [done|].
  rewrite length_app, Nat.add_1_r. cbn [Nat.pred length].
  rewrite insert_app_r_alt by lia. rewrite Nat.sub_diag.
  change (<[0%nat:=v]> [x]) with [v]. by rewrite !removelast_last.
Qed.

Lemma length_removelast_pred {A} (l : list A) :
  length (removelast l) = Nat.pred (length l).
Proof.
  destruct l as [|x l _] using rev_ind; [done|].
  rewrite removelast_last, length_app, Nat.add_1_r. done.
Qed.

Section Frame.

Variable isPrintTable : Z -> bool.
Variable GoSyntax : Mapper -> string.

Section Step.

(** The callback keeps the frame: the hypothesis of the induction on the fuel. *)
Variable rec : string -> M string.
Hypothesis rec_keeps : forall expr, keeps (rec expr).

Lemma keeps_ReplaceMapper t bf : keeps (ReplaceMapper rec t bf).
Proof.
  revert bf. induction t as [|[s|expr] t IH]; intros bf; cbn [ReplaceMapper].
  - apply keeps_ret.
  - apply IH.
  - apply keeps_bind; [apply rec_keeps|intros v; apply IH].
Qed.

Lemma keeps_require name : keeps (require rec name).
Proof.
  unfold require. intros h a h' (h0 & h1 & [= <- <-] & E)%bind_Ok. revert E.
  destruct (h_rsm h !! name) as [t|]; [apply keeps_ReplaceMapper|apply keeps_ret].
Qed.

Lemma keeps_render_leaf t m bf : keeps (render_leaf rec t m bf).
Proof.
  unfold render_leaf.
  apply keeps_bind; [apply keeps_set_preferred|intros _].
  apply keeps_bind; [apply keeps_ReplaceMapper|intros bf'].
  apply keeps_bind; [apply keeps_set_preferred|intros _]. apply keeps_ret.
Qed.

Lemma keeps_replaceVars nm : forall t sub bf, keeps (replaceVars rec t nm sub bf).
Proof.
  induction nm as [f|f l NMap IH]; intros t sub bf; cbn [replaceVars].
  - apply keeps_ret.
  - apply keeps_for_loop. intros i bf'. cbn zeta.
    destruct (NMap i sub) as [g|g l' NMap'] eqn:E.
    + apply keeps_render_leaf.
    + rewrite <- E. apply IH.
Qed.

Lemma live_frame h0 h h' : live h0 h -> frame h h' -> live h0 h'.
Proof.
  unfold live, frame. intros (R & B & D & L & I) (R' & B' & D' & L' & I').
  repeat split; try congruence.
  intros Hinv. rewrite I'; [by apply I|]. rewrite D, L. lia.
Qed.

Lemma dead_frame h0 sub h h' : dead h0 sub h -> frame h h' -> dead h0 sub h'.
Proof.
  unfold dead, frame. intros (R & B & X & D & S) (R' & B' & D' & L' & I').
  repeat split; try congruence.
  rewrite I'; [done|]. by rewrite D, X.
Qed.

Lemma findMapper_state d h nm h' : findMapper d h = Ok nm h' -> h' = h.
Proof.
  unfold findMapper, bind, get.
  destruct (_ >? d); [by intros [= _ <-]|].
  destruct (at_index _ _); [by intros [= _ <-]|done].
Qed.

Lemma findNestedMapper_loop_state n : forall d m h p h',
  findNestedMapper_loop n d m h = Ok p h' -> h' = h.
Proof.
  induction n as [|n IH]; intros d m h p h'; cbn [findNestedMapper_loop].
  - by intros [= _ <-].
  - intros (nm & h1 & E1 & E2)%bind_Ok. apply findMapper_state in E1 as ->.
    destruct nm; [by eapply IH|]. by injection E2 as _ <-.
Qed.

Lemma findNestedMapper_state sub h p h' : findNestedMapper sub h = Ok p h' -> h' = h.
Proof.
  unfold findNestedMapper. destruct (String.eqb sub ""); [by intros [= _ <-]|].
  unfold bind, get. destruct (negb _); [by intros [= _ <-]|].
  apply findNestedMapper_loop_state.
Qed.

(** Once [indexes] is empty and the depth counter zero, a further round of the
    loop panics. *)
Lemma each_body_dead h0 t NMap sub i bf h a h' :
  dead h0 sub h -> each_body rec t NMap sub i bf h = Ok a h' -> False.
Proof.
  intros (_ & _ & X & D & S). unfold each_body. cbn zeta.
  destruct (isNMapper (NMap i sub)).
  - unfold store_index, bind, get. rewrite X, D. by cbn.
  - destruct (String.eqb_spec sub "") as [|_]; [done|]. cbn [negb].
    unfold set_depth, modify, bind. unfold findNestedMapper.
    destruct (String.eqb_spec sub "") as [|_]; [done|].
    unfold bind, get. cbn [h_depth]. rewrite Z.eqb_refl. cbn [negb].
    cbn [findNestedMapper_loop]. unfold findMapper, bind, get. cbn [h_indexes].
    rewrite X. by cbn.
Qed.

Lemma each_body_live h0 t NMap sub i bf h a h' :
  live h0 h -> each_body rec t NMap sub i bf h = Ok a h' ->
  live h0 h' \/ dead h0 sub h'.
Proof.
  intros Hlive. unfold each_body. cbn zeta.
  destruct (isNMapper (NMap i sub)).
  - intros (x & h1 & E1 & E2)%bind_Ok. left.
    eapply live_frame; [|by eapply keeps_replaceVars].
    revert E1. unfold store_index, bind, get.
    destruct (at_index (h_indexes h) (h_depth h - 1)) as [e|] eqn:Eat; [|done].
    unfold set_indexes, modify. intros [= _ <-].
    destruct Hlive as (R & B & D & L & I). unfold live. cbn.
    rewrite length_insert. repeat split; try done.
    intros Hinv. rewrite <- (I Hinv).
    replace (Z.to_nat (h_depth h - 1)) with (Nat.pred (length (h_indexes h))) by lia.
    apply removelast_insert_last.
  - destruct (String.eqb_spec sub "") as [->|Hsub]; cbn [negb].
    + intros (x & h1 & E1 & E2)%bind_Ok. left.
      eapply live_frame; [|by eapply keeps_render_leaf].
      eapply live_frame; [done|by eapply keeps_set_preferred].
    + intros (x1 & h1 & [= _ <-] & E)%bind_Ok.
      apply bind_Ok in E as (p & h2 & E2 & E).
      apply findNestedMapper_state in E2 as ->.
      apply bind_Ok in E as (x3 & h3 & [= _ <-] & E).
      apply bind_Ok in E as (bf' & h4 & E4 & E).
      apply keeps_ReplaceMapper in E4 as (R4 & B4 & _).
      apply bind_Ok in E as (x5 & h5 & [= _ <-] & E).
      apply bind_Ok in E as (x6 & h6 & [= _ <-] & [= _ <-]).
      right. destruct Hlive as (R & B & _). unfold dead. cbn in *.
      repeat split; congruence.
Qed.

Lemma each_loop_inv h0 t NMap sub n i bf h a h' :
  live h0 h \/ dead h0 sub h ->
  for_loop (each_body rec t NMap sub) n i bf h = Ok a h' ->
  live h0 h' \/ dead h0 sub h'.
Proof.
  apply (for_loop_inv (fun h => live h0 h \/ dead h0 sub h)).
  clear n i bf h a h'. intros i bf h a h' [Hl|Hd] E.
  - by eapply each_body_live.
  - by destruct (each_body_dead _ _ _ _ _ _ _ _ _ Hd E).
Qed.

(** The [each] branch over a collection: when it returns, the frame is kept
    and no preferred mapper is left. *)
Lemma each_branch_frame h f l NMap t sub a h' :
  (let* _ := set_depth (h_depth h + 1) in
   let* _ := set_indexes (h_indexes h ++ [None]) in
   let* bf := for_loop (each_body rec t NMap sub) (Z.to_nat l) 0 "" in
   let* bf := replaceVars rec t (Coll f l NMap) sub bf in
   let* _ := set_preferred None in
   let* _ := pop_index in
   let* h1 := get in
   let* _ := set_depth (h_depth h1 - 1) in
   ret bf) h = Ok a h' ->
  frame h h' /\ h_preferred h' = None.
Proof.
  intros E.
  apply bind_Ok in E as (x1 & h1 & [= _ <-] & E).
  apply bind_Ok in E as (x2 & h2 & [= _ <-] & E).
  apply bind_Ok in E as (bf1 & h3 & E3 & E).
  apply bind_Ok in E as (bf2 & h4 & E4 & E).
  apply bind_Ok in E as (x5 & h5 & [= _ <-] & E).
  apply bind_Ok in E as (x6 & h6 & E6 & E).
  apply bind_Ok in E as (x7 & h7 & [= <- <-] & E).
  apply bind_Ok in E as (x8 & h8 & [= _ <-] & [= _ <-]).
  apply each_loop_inv with (h0 := h) in E3.
  2:{ left. unfold live. cbn. rewrite length_app, Nat.add_1_r.
      repeat split; try done. intros _. apply removelast_last. }
  apply keeps_replaceVars in E4.
  revert E6. unfold pop_index, bind, get. cbn [h_indexes].
  destruct E3 as [Hlive|Hdead].
  - destruct (live_frame _ _ _ Hlive E4) as (R & B & D & L & I).
    destruct (h_indexes h4) as [|e idx] eqn:Eidx; [done|].
    unfold set_indexes, modify. intros [= _ <-].
    cbn [h_rsm h_m h_depth h_indexes h_preferred]. split; [|done].
    unfold frame. cbn [h_rsm h_m h_depth h_indexes h_preferred]. rewrite R, B, D.
    repeat split; try done; try lia.
    change (length (removelast (e :: idx)) = length (h_indexes h)).
    rewrite length_removelast_pred, L. done.
  - destruct (dead_frame _ _ _ _ Hdead E4) as (_ & _ & X & _). by rewrite X.
Qed.

(** The dispatch keeps the frame, and after an [each] placeholder either no
    preferred mapper is left or the context is as it was. *)
Lemma _map_frame input h a h' :
  _map isPrintTable GoSyntax rec input h = Ok a h' ->
  frame h h' /\ ((split input).1 = "each" -> h_preferred h' = None \/ h' = h).
Proof.
  unfold _map. destruct (split input) as [prefix rest]. cbn [fst].
  destruct (String.eqb_spec prefix "require") as [->|Hrequire].
  { intros E. split; [by eapply keeps_require|done]. }
  destruct (String.eqb_spec prefix "each") as [->|Heach].
  { destruct (each_args rest) as [[[mpName sub] inc]|]; [|done].
    unfold bind at 1. unfold get.
    destruct (h_m h !! mpName) as [mp|].
    2:{ intros [= _ <-]. split; [apply frame_refl|by right]. }
    destruct (h_rsm h !! inc) as [t|].
    2:{ intros [= _ <-]. split; [apply frame_refl|by right]. }
    destruct mp as [f|f l NMap].
    { intros [= _ <-]. split; [apply frame_refl|by right]. }
    intros E. apply each_branch_frame in E as [F P]. split; [done|by left]. }
  intros E. split; [|done]. revert E. unfold bind at 1. unfold get.
  destruct (h_m h !! rest) as [mp|]; [|apply keeps_ret].
  repeat (destruct (String.eqb prefix _); [apply keeps_ret|]).
  destruct (String.eqb prefix "include"); [|apply keeps_ret].
  destruct (negb _); [apply keeps_require|apply keeps_ret].
Qed.

(** The paths of the [each] branch.  When it returns, its arguments were
    there; no preferred mapper is left when the name is bound to a collection
    and the template is in the cache, which is when the loop is entered; on
    every other path the context is as it was. *)
Lemma _map_each_paths input rest h a h' :
  split input = ("each", rest) ->
  _map isPrintTable GoSyntax rec input h = Ok a h' ->
  exists mpName sub inc,
    each_args rest = Some (mpName, sub, inc) /\
    match h_m h !! mpName, h_rsm h !! inc with
    | Some (Coll _ _ _), Some _ => h_preferred h' = None
    | _, _ => h' = h
    end.
Proof.
  intros Hsplit. unfold _map. rewrite Hsplit. cbn [String.eqb Ascii.eqb Bool.eqb].
  destruct (each_args rest) as [[[mpName sub] inc]|]; [|done].
  intros E. exists mpName, sub, inc. split; [done|]. revert E.
  unfold bind at 1. unfold get.
  destruct (h_m h !! mpName) as [mp|]; [|by intros [= _ <-]].
  destruct (h_rsm h !! inc) as [t|].
  2:{ intros [= _ <-]. by destruct mp. }
  destruct mp as [f|f l NMap]; [by intros [= _ <-]|].
  intros E. by apply each_branch_frame in E as [_ P].
Qed.

Lemma keeps_Map_body input : keeps (Map_body isPrintTable GoSyntax rec input).
Proof.
  unfold Map_body. intros h a h'. unfold bind at 1. unfold get.
  destruct (h_preferred h) as [p|].
  - destruct (negb _); [apply keeps_ret|]. intros E. by apply _map_frame in E as [F _].
  - intros E. by apply _map_frame in E as [F _].
Qed.

End Step.

(** Every call of [Map] that returns keeps the frame. *)
Lemma keeps_Map fuel : forall input, keeps (Map isPrintTable GoSyntax fuel input).
Proof.
  induction fuel as [|fuel IH]; intros input; cbn [Map].
  - by intros h a h'.
  - by apply keeps_Map_body.
Qed.

(** C9, amended: when the dispatch of an [each] placeholder returns, the cache,
    the bindings, the depth counter and the length of [indexes] are as they
    were before it, and so is [indexes] itself when the depth counter was its
    length before the dispatch (as in a new mapper).  The placeholder had its
    binding name and its template name.  No preferred mapper is left when the
    loop over a collection was entered, which is when the name is bound to an
    [NMapper] and the template is in the cache; on every other path (name not
    bound, template not in the cache, no [NMapper]) the context is as it was,
    its preferred mapper included. *)
Theorem each_keeps_frame (fuel : nat) (input rest : string) (h : HTMLTemplateMapper)
    (a : string) (h' : HTMLTemplateMapper) :
  split input = ("each", rest) ->
  _map isPrintTable GoSyntax (Map isPrintTable GoSyntax fuel) input h = Ok a h' ->
  h_rsm h' = h_rsm h /\ h_m h' = h_m h /\
  h_depth h' = h_depth h /\
  length (h_indexes h') = length (h_indexes h) /\
  (h_depth h = Z.of_nat (length (h_indexes h)) -> h_indexes h' = h_indexes h) /\
  exists mpName sub inc,
    each_args rest = Some (mpName, sub, inc) /\
    match h_m h !! mpName, h_rsm h !! inc with
    | Some (Coll _ _ _), Some _ => h_preferred h' = None
    | _, _ => h' = h
    end.
Proof.
  intros Hsplit E.
  pose proof (_map_each_paths _ (keeps_Map fuel) _ _ _ _ _ Hsplit E) as P.
  apply _map_frame in E as [(R & B & D & L & I) _]; [|apply keeps_Map].
  repeat split; done.
Qed.

End Frame.

(** The innermost scrutinee of a cascade of matches. *)
Ltac scrutinee x :=
  lazymatch x with
  | match ?y with _ => _ end => scrutinee y
  | _ => x
  end.

(** A run that starts by calling the mapper where [H] says it panics. *)
Ltac first_call H :=
  vm_compute;
  lazymatch goal with
  | |- ?run = _ =>
      let x := scrutinee run in
      let E := fresh "E" in
      let X := fresh "X" in
      destruct x eqn:E;
      pose proof (eq_trans (eq_sym H) E) as X;
      first [discriminate X | by injection X as ->]
  end.

(** C9 as stated fails, in contexts that a render from a new mapper reaches.
    In the template of a row the element is the preferred mapper: an [each]
    placeholder over a name that is not bound, met there, returns with the
    preferred mapper still set.  In the template that an [each] with a
    sub-path renders for a leaf, the depth counter is the number of segments of
    the sub-path and not the length of [indexes]: an [each] over a collection
    of collections, met there, returns with [indexes] changed.  Each of the two
    contexts is the one in which the render from the new mapper hands the
    placeholder to the mapper: when the mapper panics there, so does the
    render. *)
Lemma each_leaves_state :
  (let h := mkMapper nesting_cache Demo.bindings (Some (Demo.Users_NMap Demo.u 0 ""))
              [None] 1 in
   Map (fun _ => true) (fun _ => "") 2 "-each missing row" h = Ok "" h /\
   h_preferred h <> None /\
   forall rec msg,
     rec "-each missing row" h = Panic msg ->
     Map_body (fun _ => true) (fun _ => "") rec "-each users outer"
       (NewMapper nesting_cache Demo.bindings)
     = Panic msg) /\
  (let h := mkMapper nesting_cache Demo.bindings None [None; None] 1 in
   (exists a h',
      Map (fun _ => true) (fun _ => "") 3 "-each users.companies company" h = Ok a h' /\
      h_depth h' = h_depth h /\ h_indexes h' <> h_indexes h) /\
   forall rec msg,
     rec "-each users.companies company" h = Panic msg ->
     Map_body (fun _ => true) (fun _ => "")
       (Map_body (fun _ => true) (fun _ => "") rec) "-each users sub"
       (NewMapper nesting_cache Demo.bindings)
     = Panic msg).
Proof.
  split.
  - intros h. split; [vm_compute; reflexivity|]. split; [discriminate|].
    intros rec msg H. first_call H.
  - intros h. split.
    + eexists _, _. split; [vm_compute; reflexivity|].
      split; [reflexivity|]. cbn [h_indexes]. discriminate.
    + intros rec msg H. first_call H.
Qed.

Lemma each_keeps_frame_witness :
  let h := mkMapper Demo.cache Demo.bindings (Some Empty) [] 0 in
  let h' := mkMapper Demo.cache Demo.bindings None [] 0 in
  let out := "<li>Donald</li><li>Mickey</li><li>Donald</li><li>Mickey</li>" in
  split "-each users row" = ("each", "users row") /\
  _map (fun _ => true) (fun _ => "") (Map (fun _ => true) (fun _ => "") 1)
    "-each users row" h = Ok out h' /\
  h_depth h' = h_depth h /\ h_indexes h' = h_indexes h /\
  h_preferred h' = None.
Proof.
  intros h h' out.
  assert (E : _map (fun _ => true) (fun _ => "") (Map (fun _ => true) (fun _ => "") 1)
                "-each users row" h = Ok out h') by (vm_compute; reflexivity).
  split; [reflexivity|]. split; [exact E|].
  destruct (each_keeps_frame (fun _ => true) (fun _ => "") 1 "-each users row"
              "users row" h out h' eq_refl E)
    as (_ & _ & D & _ & I & mpName & sub & inc & Hargs & P).
  split; [exact D|]. split; [exact (I eq_refl)|].
  change (each_args "users row") with (Some ("users", "", "row")) in Hargs.
  injection Hargs as <- <- <-. exact P.
Defined.

(** ** An [each] over a collection of leaves *)

Section Rows.

Variable isPrintTable : Z -> bool.
Variable GoSyntax : Mapper -> string.
Variable rec : string -> M string.

(** The collection and the template of the placeholder; every element is a
    leaf, and rendering the template for element [i] appends [row i]. *)
Variable NMap : Z -> string -> Mapper.
Variable l : Z.
Variable t : Template.
Variable row : Z -> string.

Hypothesis leaves : forall i, 0 <= i < l -> isNMapper (NMap i "") = false.
Hypothesis renders : forall i bf h, 0 <= i < l ->
  render_leaf rec t (NMap i "") bf h = Ok (bf +:+ row i) (no_preferred h).

Lemma each_body_row i bf h :
  0 <= i < l ->
  each_body rec t NMap "" i bf h = Ok (bf +:+ row i) (no_preferred h).
Proof.
  intros Hi. unfold each_body. cbn zeta. rewrite (leaves i Hi). cbn [String.eqb negb].
  unfold bind, set_preferred, modify. by rewrite renders.
Qed.

Lemma for_loop_rows body n : forall i bf h,
  (forall j bf' h', i <= j < l -> body j bf' h' = Ok (bf' +:+ row j) (no_preferred h')) ->
  0 <= i -> n = 0%nat \/ i + Z.of_nat n <= l ->
  exists h', for_loop body n i bf h = Ok (bf +:+ rows row n i) h' /\
             no_preferred h' = no_preferred h.
Proof.
  induction n as [|n IH]; intros i bf h Hbody Hi Hn; cbn [for_loop rows].
  - exists h. split; [|done]. unfold ret. by rewrite append_nil_r.
  - unfold bind. rewrite Hbody by lia.
    destruct (IH (i + 1) (bf +:+ row i) (no_preferred h)) as (h' & E & P);
      [intros; apply Hbody; lia|lia|lia|].
    exists h'. split; [|done]. by rewrite E, append_assoc.
Qed.

(** The value of the [each] placeholder is the rows of all elements, and then
    the rows of all elements once more. *)
Theorem each_rows_twice (input rest mpName inc : string) (f : string -> string)
    (h : HTMLTemplateMapper) :
  split input = ("each", rest) ->
  each_args rest = Some (mpName, "", inc) ->
  h_m h !! mpName = Some (Coll f l NMap) ->
  h_rsm h !! inc = Some t ->
  _map isPrintTable GoSyntax rec input h
  = Ok (rows row (Z.to_nat l) 0 +:+ rows row (Z.to_nat l) 0) (no_preferred h).
Proof.
  intros Hsplit Hargs Hbound Hcached. unfold _map. rewrite Hsplit.
  cbn [String.eqb Ascii.eqb Bool.eqb]. rewrite Hargs.
  unfold bind at 1. unfold get. rewrite Hbound, Hcached.
  unfold bind at 1. unfold set_depth at 1. unfold modify.
  unfold bind at 1. unfold set_indexes at 1. unfold modify.
  cbn [h_rsm h_m h_preferred h_indexes h_depth].
  set (h1 := mkMapper _ _ _ _ _).
  destruct (for_loop_rows (each_body rec t NMap "") (Z.to_nat l) 0 "" h1)
    as (h2 & E2 & P2); [intros; apply each_body_row; lia|lia|lia|].
  unfold bind at 1. rewrite E2. cbn [String.append].
  cbn [replaceVars]. change ("" +:+ rows row (Z.to_nat l) 0) with (rows row (Z.to_nat l) 0).
  match goal with
  | |- context [for_loop ?body ?n ?i ?bf] =>
      destruct (for_loop_rows body n i bf h2) as (h3 & E3 & P3); [|lia|lia|]
  end.
  { intros j bf' h' Hj. pose proof (leaves j ltac:(lia)) as Hleaf.
    destruct (NMap j "") eqn:Em; [|done]. rewrite <- Em. apply renders. lia. }
  unfold bind at 1. rewrite E3.
  unfold set_preferred, pop_index, set_indexes, set_depth, modify, get, ret, bind.
  cbn [h_rsm h_m h_preferred h_indexes h_depth].
  assert (X : h_indexes h3 = h_indexes h ++ [None]).
  { change (h_indexes (no_preferred h3) = h_indexes h ++ [None]).
    rewrite P3. change (h_indexes (no_preferred h2) = h_indexes h ++ [None]).
    by rewrite P2. }
  assert (R : h_rsm h3 = h_rsm h /\ h_m h3 = h_m h /\ h_depth h3 = h_depth h + 1).
  { change (h_rsm (no_preferred h3) = h_rsm h /\ h_m (no_preferred h3) = h_m h /\
            h_depth (no_preferred h3) = h_depth h + 1).
    rewrite P3.
    change (h_rsm (no_preferred h2) = h_rsm h /\ h_m (no_preferred h2) = h_m h /\
            h_depth (no_preferred h2) = h_depth h + 1).
    by rewrite P2. }
  destruct R as (R1 & R2 & R3). rewrite X.
  destruct (h_indexes h ++ [None]) as [|e idx] eqn:Eidx.
  { by destruct (h_indexes h). }
  cbn [h_rsm h_m h_preferred h_indexes h_depth].
  rewrite <- Eidx, removelast_last, R1, R2, R3. unfold no_preferred.
  do 2 f_equal. lia.
Qed.

End Rows.

Lemma each_rows_twice_witness :
  let row (i : Z) := if i =? 0 then "<li>Donald</li>" else "<li>Mickey</li>" in
  let h := NewMapper Demo.cache Demo.bindings in
  _map (fun _ => true) (fun _ => "") (Map (fun _ => true) (fun _ => "") 1)
    "-each users row" h
  = Ok (rows row 2 0 +:+ rows row 2 0) (no_preferred h).
Proof.
  intros row h.
  refine (each_rows_twice (fun _ => true) (fun _ => "") (Map (fun _ => true) (fun _ => "") 1)
            (Demo.Users_NMap Demo.u) 2 [Text "<li>"; Place "firstname"; Text "</li>"]
            row _ _ "-each users row" "users row" "users" "row" (fun _ => "") h
            eq_refl eq_refl _ _).
  - intros i Hi. assert (i = 0 \/ i = 1) as [-> | ->] by lia; reflexivity.
  - intros i bf h1 Hi. assert (i = 0 \/ i = 1) as [-> | ->] by lia.
    + transitivity (Ok (((bf +:+ "<li>") +:+ "Donald") +:+ "</li>") (no_preferred h1));
        [reflexivity|]. by rewrite !append_assoc.
    + transitivity (Ok (((bf +:+ "<li>") +:+ "Mickey") +:+ "</li>") (no_preferred h1));
        [reflexivity|]. by rewrite !append_assoc.
  - vm_compute. reflexivity.
  - vm_compute. reflexivity.
Defined.

(** ** The scenarios of the specification, run on the model *)

Example scenario_default_escapes :
  Map (fun _ => true) (fun _ => "") 1 "name"
    (NewMapper ∅ {[ "name" := String_ "Donald & Sons" ]})
  = Ok "Donald &amp; Sons" (NewMapper ∅ {[ "name" := String_ "Donald & Sons" ]}).
Proof. vm_compute. reflexivity. Qed.

Example scenario_each_missing :
  Map (fun _ => true) (fun _ => "") 1 "-each missingBinding tmpl"
    (NewMapper Demo.cache Demo.bindings)
  = Ok "" (NewMapper Demo.cache Demo.bindings).
Proof. vm_compute. reflexivity. Qed.

Example scenario_nested_companies :
  Map (fun _ => true) (fun _ => "") 2 "-each users.companies company"
    (NewMapper Demo.cache Demo.bindings)
  = Ok "<b>Walt Disney</b><b>Universal</b><b>Walt Disney</b><b>Universal</b>"
       (NewMapper Demo.cache Demo.bindings).
Proof. vm_compute. reflexivity. Qed.

Example scenario_registry :
  Registry.Map (Registry.Add Registry.New "user" (Self "u:")).1 "-user name" = "u:name" /\
  Registry.Map Registry.New "" = "" /\ Registry.Map Registry.New "-" = "".
Proof. repeat split; vm_compute; reflexivity. Qed.

Example scenario_split :
  split "-each users  row " = ("each", "users  row") /\
  split " name " = ("", " name ") /\
  split "-raw" = ("raw", "").
Proof. repeat split; reflexivity. Qed.

(** * Further properties of the package *)

(** ** [split] *)

Lemma IndexByte_substring_none s c :
  strings.IndexByte s c = -1 ->
  forall n m, strings.IndexByte (String.substring n m s) c = -1.
Proof.
  induction s as [|b s IH]; intros Hs n m.
  - by destruct n, m.
  - revert Hs. cbn [strings.IndexByte].
    destruct (Ascii.eqb b c) eqn:Eb; [done|].
    destruct (Z.eqb_spec (strings.IndexByte s c) (-1)) as [E|E]; [intros _|].
    2:{ pose proof (IndexByte_range s c). lia. }
    destruct n as [|n]; cbn [String.substring].
    + destruct m as [|m]; [done|]. cbn [strings.IndexByte].
      by rewrite Eb, (IH E 0%nat m).
    + by apply IH.
Qed.

Lemma IndexByte_substring_before s c : forall m,
  Z.of_nat m <= strings.IndexByte s c ->
  strings.IndexByte (String.substring 0 m s) c = -1.
Proof.
  induction s as [|b s IH]; intros m.
  - by destruct m.
  - cbn [strings.IndexByte]. destruct m as [|m]; [done|].
    destruct (Ascii.eqb b c) eqn:Eb; [lia|].
    destruct (Z.eqb_spec (strings.IndexByte s c) (-1)) as [E|E]; [lia|].
    intros Hm. cbn [String.substring strings.IndexByte].
    rewrite Eb, IH by lia. done.
Qed.

(** The prefix that [split] returns never holds a space, whatever the input. *)
Theorem split_prefix_has_no_space (input : string) :
  strings.IndexByte (split input).1 " " = -1.
Proof.
  unfold split.
  destruct (String.eqb input "" || String.eqb input "-"); [done|].
  destruct input as [|c s]; [done|].
  destruct (negb (Ascii.eqb c "-")); [done|].
  cbn [strings.IndexByte].
  destruct (Ascii.eqb c " ") eqn:Ec.
  - (* the marker itself cannot be a space, but the case costs nothing *)
    cbn [Z.eqb fst]. unfold strings.slice. by destruct s.
  - destruct (Z.eqb_spec (strings.IndexByte s " ") (-1)) as [E|E]; cbn [Z.eqb fst].
    + unfold strings.slice_from, strings.slice.
      change (Z.to_nat 1) with 1%nat. cbn [String.substring].
      by apply IndexByte_substring_none.
    + pose proof (IndexByte_range s " ") as [?|Hr]; [done|].
      destruct (Z.eqb_spec (strings.IndexByte s " " + 1) (-1)); [lia|]. cbn [fst].
      unfold strings.slice. change (Z.to_nat 1) with 1%nat. cbn [String.substring].
      apply IndexByte_substring_before. lia.
Qed.

(** ** The registry, further *)

Lemma registry_Map_unregistered (mp : gmap string Mapper) (input : string) :
  mp !! (split input).1 = None -> Registry.Map mp input = "".
Proof.
  unfold Registry.Map. intros Hmiss.
  destruct (split input) as [prefix rest]. cbn [fst] in Hmiss. rewrite Hmiss.
  by destruct (_ && _).
Qed.

(** A lookup that misses yields the empty string: the empty input and the
    lone marker do so even when a default mapper is registered, and so does
    every input whose prefix has no mapper. *)
Theorem registry_Map_miss (mp : gmap string Mapper) (input : string) :
  input = "" \/ input = "-" \/ mp !! (split input).1 = None ->
  Registry.Map mp input = "".
Proof.
  intros [-> | [-> | Hmiss]]; [done|done|]. by apply registry_Map_unregistered.
Qed.

Lemma registry_Map_miss_witness :
  Registry.Map (Registry.Add Registry.New "" (Self "default:")).1 "-" = "" /\
  Registry.Map (Registry.Add Registry.New "user" (Self "u:")).1 "-admin name" = "".
Proof.
  split.
  - apply registry_Map_miss. right. left. reflexivity.
  - apply registry_Map_miss. right. right. vm_compute. reflexivity.
Defined.

(** In a registry built by [Add], an input whose prefix does not match the
    rule yields the empty string: no mapper can be registered for it. *)
Theorem registry_Map_invalid_prefix (mp : gmap string Mapper) (input : string) :
  Registry.reachable mp ->
  (split input).1 <> "" ->
  Registry.prefixRule (split input).1 = false ->
  Registry.Map mp input = "".
Proof.
  intros Hreach Hne Hrule. apply registry_Map_unregistered.
  destruct (mp !! (split input).1) as [v|] eqn:E; [|done].
  destruct (reachable_keys mp Hreach _ v E) as [?|Hr]; [done|congruence].
Qed.

Lemma registry_Map_invalid_prefix_witness :
  Registry.Map (Registry.Add (Registry.Add Registry.New "user" (Self "u:")).1
                  "User" (Self "U:")).1 "-User name" = "".
Proof.
  apply registry_Map_invalid_prefix.
  - do 2 apply Registry.reach_Add. apply Registry.reach_New.
  - vm_compute. discriminate.
  - reflexivity.
Defined.

(** The default mapper: registered under the empty prefix, it answers every
    input that is not empty and does not start with the marker, and it gets
    the input as it is, not trimmed. *)
Theorem registry_default_mapper (mp : gmap string Mapper) (v : Mapper)
    (c : ascii) (s : string) :
  mp !! "" = None ->
  c <> "-"%char ->
  (Registry.Add mp "" v).2 = None /\
  Registry.Map (Registry.Add mp "" v).1 (String c s) = Mapper_Map v (String c s).
Proof.
  intros Hfree Hc. unfold Registry.Add. cbn [String.eqb negb andb]. rewrite Hfree.
  cbn [fst snd]. split; [done|]. unfold Registry.Map.
  assert (Hsplit : split (String c s) = ("", String c s)).
  { unfold split. cbn [String.eqb orb].
    destruct (Ascii.eqb_spec c "-") as [|_]; [done|]. cbn [negb]. by destruct s. }
  rewrite Hsplit. cbn [String.eqb andb]. by rewrite lookup_insert_eq.
Qed.

Lemma registry_default_mapper_witness :
  Registry.Map (Registry.Add Registry.New "" (Self "default:")).1 " name "
  = "default: name ".
Proof.
  exact (proj2 (registry_default_mapper Registry.New (Self "default:") " " "name "
                  eq_refl ltac:(discriminate))).
Defined.

(** [Add] for one prefix, whether it succeeds or fails, leaves the answers for
    inputs of every other prefix as they were. *)
Theorem registry_Add_other_prefix (mp : gmap string Mapper) (p : string) (v : Mapper)
    (input : string) :
  (split input).1 <> p ->
  Registry.Map (Registry.Add mp p v).1 input = Registry.Map mp input.
Proof.
  intros Hne. unfold Registry.Add.
  destruct (_ && _); [done|]. destruct (mp !! p); [done|]. cbn [fst].
  unfold Registry.Map. destruct (split input) as [prefix rest]. cbn [fst] in Hne.
  by rewrite lookup_insert_ne.
Qed.

Lemma registry_Add_other_prefix_witness :
  Registry.Map (Registry.Add (Registry.Add Registry.New "user" (Self "u:")).1
                  "admin" (Self "a:")).1 "-user name"
  = Registry.Map (Registry.Add Registry.New "user" (Self "u:")).1 "-user name".
Proof.
  apply registry_Add_other_prefix. vm_compute. discriminate.
Defined.

(** ** [mapDelegate] *)


(** ** The map of readers *)

Lemma slice_from_start s : strings.slice_from s 0 = s.
Proof.
  unfold strings.slice_from, strings.slice. rewrite Z.sub_0_r, Nat2Z.id.
  apply substring_all.
Qed.

(** Seeking to the start and reading all yields the bytes of a [bytes.Reader]
    at whatever offset it stands, and nothing for a reader that fails. *)
Lemma read_from_start_value rs :
  (read_from_start rs).1
  = match rs with BytesReader s _ => Some s | _ => None end.
Proof. destruct rs; cbn; [by rewrite slice_from_start|done|done]. Qed.

(** Reading again after a read yields the same. *)
Lemma read_from_start_again rs :
  (read_from_start (read_from_start rs).2).1 = (read_from_start rs).1.
Proof. destruct rs; cbn; [by rewrite !slice_from_start|done|done]. Qed.

(** A reader added under a free name is read back in full by [Map], at
    whatever offset it was added; a second [Add] under the name returns the
    already-exists error and leaves the map as it is. *)
Theorem ReadSeekerMap_Add_Map (r : gmap string ReadSeeker) (name s : string) (i : Z)
    (rs : ReadSeeker) :
  r !! name = None ->
  let r1 := (ReadSeekerMap.Add r name (BytesReader s i)).1 in
  (ReadSeekerMap.Add r name (BytesReader s i)).2 = None /\
  (ReadSeekerMap.Map r1 name).1 = s /\
  ReadSeekerMap.Add r1 name rs
  = (r1, Some (ReadSeekerMap.ReadSeekerAlreadyExistsError name)).
Proof.
  intros Hfree. unfold ReadSeekerMap.Add at 1 2. rewrite Hfree. cbn [fst snd].
  split; [done|]. split.
  - unfold ReadSeekerMap.Map. rewrite lookup_insert_eq. cbn.
    by rewrite slice_from_start.
  - unfold ReadSeekerMap.Add. by rewrite lookup_insert_eq.
Qed.

Lemma ReadSeekerMap_Add_Map_witness :
  (ReadSeekerMap.Map (ReadSeekerMap.Add ReadSeekerMap.New "row.html"
                        (BytesReader "<li><@firstname@></li>" 4)).1 "row.html").1
  = "<li><@firstname@></li>".
Proof.
  exact (proj1 (proj2 (ReadSeekerMap_Add_Map ReadSeekerMap.New "row.html"
                         "<li><@firstname@></li>" 4 SeekError eq_refl))).
Defined.

(** [Map] moves the reader it reads, but it rewinds before it reads: after any
    [Map], every name yields what it yielded before, and a name that is not in
    the map yields the empty string. *)
Theorem ReadSeekerMap_Map_repeatable (r : gmap string ReadSeeker) (name name' : string) :
  (ReadSeekerMap.Map (ReadSeekerMap.Map r name).2 name').1
  = (ReadSeekerMap.Map r name').1 /\
  (r !! name' = None -> (ReadSeekerMap.Map (ReadSeekerMap.Map r name).2 name').1 = "").
Proof.
  assert (E : (ReadSeekerMap.Map (ReadSeekerMap.Map r name).2 name').1
              = (ReadSeekerMap.Map r name').1).
  { unfold ReadSeekerMap.Map at 2.
    destruct (r !! name) as [rs|] eqn:Ename; [|done].
    destruct (read_from_start rs) as [b rs'] eqn:Eread. cbn [snd].
    unfold ReadSeekerMap.Map.
    destruct (decide (name = name')) as [<-|Hne].
    - rewrite lookup_insert_eq, Ename, Eread.
      pose proof (read_from_start_again rs) as Hagain. rewrite Eread in Hagain.
      cbn [fst snd] in Hagain.
      destruct (read_from_start rs') as [b' rs'']. cbn [fst] in *. by subst.
    - rewrite lookup_insert_ne by done. destruct (r !! name') as [rs1|]; [|done].
      by destruct (read_from_start rs1). }
  split; [done|]. intros Hmiss. rewrite E. unfold ReadSeekerMap.Map. by rewrite Hmiss.
Qed.

(** ** The cache *)

Lemma NewHTMLTemplate_rsm (NewTemplate : string -> Template)
    (rs : gmap string ReadSeeker) (name : string) :
  t_rsm (NewHTMLTemplate NewTemplate rs) !! name
  = match rs !! name with
    | Some (BytesReader s _) => Some (NewTemplate s)
    | _ => None
    end.
Proof.
  unfold NewHTMLTemplate. cbn [t_rsm]. rewrite lookup_omap.
  destruct (rs !! name) as [r|]; [|done]. cbn.
  rewrite read_from_start_value. by destruct r.
Qed.

(** The cache that [NewHTMLTemplate] builds holds, for the name of each
    [bytes.Reader], the parse of all its bytes, at whatever offset the reader
    stood; a reader that fails has no entry, and neither has a name without a
    reader.  Building the cache moves the readers to their ends, but [Map] on
    the map of readers yields afterwards what it yielded before. *)
Theorem NewHTMLTemplate_lookup (NewTemplate : string -> Template)
    (rs : gmap string ReadSeeker) (name : string) :
  t_rsm (NewHTMLTemplate NewTemplate rs) !! name
  = match rs !! name with
    | Some (BytesReader s _) => Some (NewTemplate s)
    | _ => None
    end /\
  (ReadSeekerMap.Map (t_rs (NewHTMLTemplate NewTemplate rs)) name).1
  = (ReadSeekerMap.Map rs name).1.
Proof.
  split; [apply NewHTMLTemplate_rsm|].
  unfold NewHTMLTemplate. cbn [t_rs]. unfold ReadSeekerMap.Map. rewrite lookup_fmap.
  destruct (rs !! name) as [r|]; [|done]. cbn [fmap option_fmap option_map].
  pose proof (read_from_start_again r) as Hagain.
  destruct (read_from_start r) as [b r1]. cbn [fst snd] in *.
  destruct (read_from_start r1) as [b1 r2]. cbn [fst] in *. by subst.
Qed.

Section CacheUse.

Variable isPrintTable : Z -> bool.
Variable GoSyntax : Mapper -> string.
Variable NewTemplate : string -> Template.

(** From the file to the page: a source added to the map of readers under a
    free name is, in the mapper made from the cache built from that map, what
    [require] of the name renders; a name without a source renders as the
    empty string. *)
Theorem require_renders_source (rs : gmap string ReadSeeker) (name s other : string)
    (m : gmap string Mapper) (fuel : nat) :
  rs !! name = None ->
  let rs1 := (ReadSeekerMap.Add rs name (BytesReader s 0)).1 in
  let h := HTMLTemplate_NewMapper (NewHTMLTemplate NewTemplate rs1) m in
  require (Map isPrintTable GoSyntax fuel) name h
  = ReplaceMapper (Map isPrintTable GoSyntax fuel) (NewTemplate s) "" h /\
  (rs1 !! other = None ->
   require (Map isPrintTable GoSyntax fuel) other h = Ok "" h).
Proof.
  intros Hfree rs1 h. unfold require, bind, get.
  change (h_rsm h) with (t_rsm (NewHTMLTemplate NewTemplate rs1)).
  rewrite !NewHTMLTemplate_rsm. split.
  - unfold rs1, ReadSeekerMap.Add. rewrite Hfree. cbn [fst].
    by rewrite lookup_insert_eq.
  - by intros ->.
Qed.

End CacheUse.

Lemma require_renders_source_witness :
  let rs1 := (ReadSeekerMap.Add ReadSeekerMap.New "row.html" (BytesReader "Donald" 0)).1 in
  let h := HTMLTemplate_NewMapper (NewHTMLTemplate (fun s => [Text s]) rs1) ∅ in
  require (Map (fun _ => true) (fun _ => "") 1) "row.html" h = Ok "Donald" h.
Proof.
  exact (proj1 (require_renders_source (fun _ => true) (fun _ => "") (fun s => [Text s])
                  ReadSeekerMap.New "row.html" "Donald" "" ∅ 1 eq_refl)).
Defined.

(** ** [findMapper] and [findNestedMapper] *)

(** [findMapper] returns an entry of [indexes] only for the depth that is the
    length of [indexes], and the entry is the last one: no other entry is ever
    returned. *)
Theorem findMapper_returns_last (d : Z) (h : HTMLTemplateMapper) (nm : Mapper)
    (h' : HTMLTemplateMapper) :
  findMapper d h = Ok (Some nm) h' ->
  h' = h /\ d = Z.of_nat (length (h_indexes h)) /\ last (h_indexes h) = Some (Some nm).
Proof.
  intros E. pose proof (findMapper_state _ _ _ _ E) as ->. split; [done|].
  revert E. unfold findMapper, bind, get, at_index.
  destruct (Z.gtb_spec (Z.of_nat (length (h_indexes h))) d) as [Hgt|Hle]; [done|].
  destruct (Z.ltb_spec (d - 1) 0) as [Hneg|Hpos]; [done|].
  destruct (h_indexes h !! Z.to_nat (d - 1)) as [e|] eqn:El; [|done].
  unfold ret. intros [= ->].
  pose proof (lookup_lt_Some _ _ _ El) as Hlt.
  assert (Hd : d = Z.of_nat (length (h_indexes h))) by lia.
  split; [done|]. rewrite last_lookup, <- El. f_equal. lia.
Qed.

Lemma findMapper_returns_last_witness :
  let h := mkMapper ∅ ∅ None [None; Some Empty] 2 in
  findMapper 2 h = Ok (Some Empty) h /\ last (h_indexes h) = Some (Some Empty).
Proof.
  intros h. split; [reflexivity|].
  exact (proj2 (proj2 (findMapper_returns_last 2 h Empty h eq_refl))).
Defined.

(** [findNestedMapper] never finds a mapper in [indexes]: for a sub-path that
    is not empty it returns the diagnostic mapper when the number of segments
    is not the depth counter, and otherwise [nil], or it panics when [indexes]
    is empty; the context stays as it is. *)
Theorem findNestedMapper_finds_nothing (sub : string) (h : HTMLTemplateMapper) :
  sub <> "" ->
  findNestedMapper sub h
  = if negb (Z.of_nat (length (strings.Split sub ".")) =? h_depth h) then
      Ok (Some (String_ "[Error] too deep var declaration")) h
    else
      match h_indexes h with
      | [] => Panic index_out_of_range
      | _ :: _ => Ok None h
      end.
Proof.
  intros Hsub. unfold findNestedMapper.
  destruct (String.eqb_spec sub "") as [|_]; [done|].
  unfold bind at 1. unfold get.
  destruct (negb _); [done|].
  cbn [findNestedMapper_loop]. unfold findMapper, get, bind.
  destruct (h_indexes h) as [|e l]; reflexivity.
Qed.

Lemma findNestedMapper_finds_nothing_witness :
  findNestedMapper "companies" (mkMapper ∅ ∅ None [Some (Demo.Users Demo.u)] 1)
  = Ok None (mkMapper ∅ ∅ None [Some (Demo.Users Demo.u)] 1).
Proof.
  exact (findNestedMapper_finds_nothing "companies"
           (mkMapper ∅ ∅ None [Some (Demo.Users Demo.u)] 1) ltac:(discriminate)).
Defined.

(** ** The dispatch of plain placeholders *)

Section Plain.

Variable isPrintTable : Z -> bool.
Variable GoSyntax : Mapper -> string.
Variable rec : string -> M string.

(** For every directive but [require] and [each]: a rest that is not bound
    yields the empty string, whatever the directive; and a directive that is
    none of [js], [raw], [html], [url] and [include] escapes the value for
    HTML, as no directive does.  The context stays as it is. *)
Theorem plain_unbound_or_unknown (input prefix rest : string) (h : HTMLTemplateMapper) :
  split input = (prefix, rest) ->
  prefix <> "require" -> prefix <> "each" ->
  (h_m h !! rest = None -> _map isPrintTable GoSyntax rec input h = Ok "" h) /\
  (forall mp, h_m h !! rest = Some mp ->
     prefix <> "js" -> prefix <> "raw" -> prefix <> "html" -> prefix <> "url" ->
     prefix <> "include" ->
     _map isPrintTable GoSyntax rec input h
     = Ok (html.EscapeString (Mapper_Map mp rest)) h).
Proof.
  intros Hsplit Hreq Heach. unfold _map. rewrite Hsplit.
  destruct (String.eqb_spec prefix "require") as [|_]; [done|].
  destruct (String.eqb_spec prefix "each") as [|_]; [done|].
  unfold bind, get. split.
  - by intros ->.
  - intros mp -> Hjs Hraw Hhtml Hurl Hinc.
    destruct (String.eqb_spec prefix "js") as [|_]; [done|].
    destruct (String.eqb_spec prefix "raw") as [|_]; [done|].
    destruct (String.eqb_spec prefix "html") as [|_]; [done|].
    destruct (String.eqb_spec prefix "url") as [|_]; [done|].
    destruct (String.eqb_spec prefix "include") as [|_]; [done|].
    done.
Qed.

(** The directive [include] is [require] of the value: when the value the
    bound mapper returns is not empty and has no white space around it, the
    placeholder [-include name] yields what the placeholder [-require value]
    yields; when the value is empty, it yields the empty string. *)
Theorem include_is_require (input rest : string) (h : HTMLTemplateMapper) (mp : Mapper) :
  split input = ("include", rest) ->
  h_m h !! rest = Some mp ->
  let val := Mapper_Map mp (strings.TrimSpace rest) in
  (val = "" -> _map isPrintTable GoSyntax rec input h = Ok "" h) /\
  (val <> "" -> strings.TrimSpace val = val ->
   _map isPrintTable GoSyntax rec input h
   = _map isPrintTable GoSyntax rec ("-require " +:+ val) h).
Proof.
  intros Hsplit Hbound val.
  assert (E : _map isPrintTable GoSyntax rec input h
              = (if negb (String.eqb val "") then require rec val else ret "") h).
  { unfold _map. rewrite Hsplit. cbn [String.eqb Ascii.eqb Bool.eqb].
    unfold bind, get. by rewrite Hbound. }
  rewrite E. split.
  - by intros ->.
  - intros Hval Htrim. destruct (String.eqb_spec val "") as [|_]; [done|]. cbn [negb].
    unfold _map.
    change ("-require " +:+ val) with (String "-" ("require" +:+ String " " val)).
    rewrite split_prefixed by reflexivity. rewrite Htrim. reflexivity.
Qed.

End Plain.

Lemma plain_unbound_or_unknown_witness :
  let h := NewMapper Demo.cache Demo.bindings in
  _map (fun _ => true) (fun _ => "") (fun _ => ret "") "-jss myclass" h
  = Ok "&lt;hiho&gt;" h /\
  _map (fun _ => true) (fun _ => "") (fun _ => ret "") "-js nothing" h = Ok "" h.
Proof.
  intros h. split.
  - refine (proj2 (plain_unbound_or_unknown (fun _ => true) (fun _ => "") (fun _ => ret "")
                     "-jss myclass" "jss" "myclass" h eq_refl _ _)
              (String_ "<hiho>") _ _ _ _ _ _);
      first [discriminate | vm_compute; reflexivity].
  - refine (proj1 (plain_unbound_or_unknown (fun _ => true) (fun _ => "") (fun _ => ret "")
                     "-js nothing" "js" "nothing" h eq_refl _ _) _);
      first [discriminate | vm_compute; reflexivity].
Defined.

Lemma include_is_require_witness :
  let h := NewMapper Demo.cache {[ "part" := String_ "row" ]} in
  _map (fun _ => true) (fun _ => "") (fun _ => ret "x") "-include part" h
  = _map (fun _ => true) (fun _ => "") (fun _ => ret "x") "-require row" h.
Proof.
  intros h.
  refine (proj2 (include_is_require (fun _ => true) (fun _ => "") (fun _ => ret "x")
                   "-include part" "part" h (String_ "row") eq_refl _) _ _).
  - vm_compute. reflexivity.
  - discriminate.
  - reflexivity.
Defined.

(** ** What the escaping directives write *)

Lemma free_of_app bad s t :
  free_of bad (s +:+ t) = free_of bad s && free_of bad t.
Proof.
  induction s as [|c s IH]; [done|].
  rewrite append_cons. cbn [free_of]. by rewrite IH, andb_assoc.
Qed.

Lemma EscapeString_free s : free_of html_special (html.EscapeString s) = true.
Proof.
  induction s as [|c s IH]; [done|].
  cbn [html.EscapeString]. rewrite free_of_app, IH, andb_true_r.
  destruct c as [[] [] [] [] [] [] [] []]; reflexivity.
Qed.

Lemma QueryEscape_free s :
  free_of (fun c => negb (url_safe c)) (url.QueryEscape s) = true.
Proof.
  induction s as [|c s IH]; [done|].
  cbn [url.QueryEscape]. rewrite free_of_app, IH, andb_true_r.
  destruct c as [[] [] [] [] [] [] [] []]; reflexivity.
Qed.

(** The mappers [HTMLEscape] and [UrlEscape]: what [HTMLEscape] returns holds
    no angle bracket and no quote, and unescaping gives the placeholder back;
    what [UrlEscape] returns holds only letters, digits and the bytes
    [-_.~+%], and percent-decoding gives the placeholder back.  So both are
    one-to-one. *)
Theorem escape_mappers (s s' : string) :
  free_of html_special (Mapper_Map HTMLEscape s) = true /\
  html.UnescapeString (Mapper_Map HTMLEscape s) = s /\
  free_of (fun c => negb (url_safe c)) (Mapper_Map UrlEscape s) = true /\
  url.QueryUnescape (Mapper_Map UrlEscape s) = Some s /\
  (Mapper_Map HTMLEscape s = Mapper_Map HTMLEscape s' -> s = s') /\
  (Mapper_Map UrlEscape s = Mapper_Map UrlEscape s' -> s = s').
Proof.
  unfold HTMLEscape, UrlEscape, MapFunc. cbn [Mapper_Map].
  repeat split.
  - apply EscapeString_free.
  - apply UnescapeString_EscapeString.
  - apply QueryEscape_free.
  - apply QueryUnescape_QueryEscape.
  - intros E. rewrite <- (UnescapeString_EscapeString s), E.
    apply UnescapeString_EscapeString.
  - intros E. pose proof (QueryUnescape_QueryEscape s) as H1.
    rewrite E, QueryUnescape_QueryEscape in H1. by injection H1.
Qed.

(** Through the dispatch: for a bound value, the output without a directive
    holds no angle bracket and no quote, whatever the value holds, and the
    output of the directive [url] holds only letters, digits and the bytes
    [-_.~+%]. *)
Theorem escaped_output_is_safe (isPrintTable : Z -> bool) (GoSyntax : Mapper -> string)
    (rec : string -> M string) (input rest : string) (h : HTMLTemplateMapper)
    (mp : Mapper) :
  h_m h !! rest = Some mp ->
  (split input = ("", rest) ->
   exists out, _map isPrintTable GoSyntax rec input h = Ok out h /\
               free_of html_special out = true) /\
  (split input = ("url", rest) ->
   exists out, _map isPrintTable GoSyntax rec input h = Ok out h /\
               free_of (fun c => negb (url_safe c)) out = true).
Proof.
  intros Hbound. split; intros Hsplit; unfold _map; rewrite Hsplit;
    cbn [String.eqb Ascii.eqb Bool.eqb]; unfold bind, get; rewrite Hbound.
  - eexists; split; [reflexivity|apply EscapeString_free].
  - eexists; split; [reflexivity|apply QueryEscape_free].
Qed.

Lemma escaped_output_is_safe_witness :
  let h := NewMapper Demo.cache Demo.bindings in
  (exists out,
     _map (fun _ => true) (fun _ => "") (fun _ => ret "") "myclass" h = Ok out h /\
     free_of html_special out = true) /\
  (exists out,
     _map (fun _ => true) (fun _ => "") (fun _ => ret "") "-url myclass" h = Ok out h /\
     free_of (fun c => negb (url_safe c)) out = true).
Proof.
  intros h.
  assert (B : h_m h !! "myclass" = Some (String_ "<hiho>")) by (vm_compute; reflexivity).
  split.
  - exact (proj1 (escaped_output_is_safe (fun _ => true) (fun _ => "") (fun _ => ret "")
                    "myclass" "myclass" h (String_ "<hiho>") B) eq_refl).
  - exact (proj2 (escaped_output_is_safe (fun _ => true) (fun _ => "") (fun _ => ret "")
                    "-url myclass" "myclass" h (String_ "<hiho>") B) eq_refl).
Defined.

(** ** The context after a placeholder *)

Lemma fades_refl h : fades h h.
Proof. by left. Qed.

Lemma fades_trans h1 h2 h3 : fades h1 h2 -> fades h2 h3 -> fades h1 h3.
Proof. unfold fades. intros [E1|E1] [E2|E2]; rewrite ?E2, ?E1; auto. Qed.

Lemma fading_ret {A} (a : A) : fading (ret a).
Proof. unfold fading, ret. intros h a' h' [= _ <-]. apply fades_refl. Qed.

Lemma fading_bind {A B} (c : M A) (k : A -> M B) :
  fading c -> (forall a, fading (k a)) -> fading (bind c k).
Proof.
  intros Hc Hk h b h' (a & h1 & E1 & E2)%bind_Ok.
  eapply fades_trans; [by eapply Hc|by eapply Hk].
Qed.

Lemma fading_for_loop body n i bf :
  (forall i bf, fading (body i bf)) -> fading (for_loop body n i bf).
Proof.
  intros Hbody. revert i bf. induction n as [|n IH]; intros i bf; cbn [for_loop].
  - apply fading_ret.
  - apply fading_bind; [apply Hbody|intros bf'; apply IH].
Qed.

(** A context without preferred mapper whose depth counter is the length of
    [indexes] is the same after a run that keeps the frame and lets the
    preferred mapper fade. *)
Lemma frame_fades_same h h' :
  frame h h' -> fades h h' ->
  h_preferred h = None -> h_depth h = Z.of_nat (length (h_indexes h)) -> h' = h.
Proof.
  intros (R & B & D & _ & I) F P Hinv. specialize (I Hinv).
  assert (P' : h_preferred h' = None) by (destruct F; congruence).
  destruct h, h'. cbn in *. by subst.
Qed.

Section Restore.

Variable isPrintTable : Z -> bool.
Variable GoSyntax : Mapper -> string.

Section RestoreStep.

Variable rec : string -> M string.
Hypothesis rec_keeps : forall expr, keeps (rec expr).
Hypothesis rec_fading : forall expr, fading (rec expr).

Lemma fading_ReplaceMapper t bf : fading (ReplaceMapper rec t bf).
Proof.
  revert bf. induction t as [|[s|expr] t IH]; intros bf; cbn [ReplaceMapper].
  - apply fading_ret.
  - apply IH.
  - apply fading_bind; [apply rec_fading|intros v; apply IH].
Qed.

Lemma fading_require name : fading (require rec name).
Proof.
  unfold require. intros h a h' (h0 & h1 & [= <- <-] & E)%bind_Ok. revert E.
  destruct (h_rsm h !! name) as [t|]; [apply fading_ReplaceMapper|apply fading_ret].
Qed.

Lemma render_leaf_clears t m bf h a h' :
  render_leaf rec t m bf h = Ok a h' -> h_preferred h' = None.
Proof.
  unfold render_leaf. intros E.
  apply bind_Ok in E as (x1 & h1 & _ & E).
  apply bind_Ok in E as (bf' & h2 & _ & E).
  apply bind_Ok in E as (x3 & h3 & [= _ <-] & [= _ <-]). done.
Qed.

Lemma fading_replaceVars nm : forall t sub bf, fading (replaceVars rec t nm sub bf).
Proof.
  induction nm as [f|f l NMap IH]; intros t sub bf; cbn [replaceVars].
  - apply fading_ret.
  - apply fading_for_loop. intros i bf'. cbn zeta.
    destruct (NMap i sub) as [g|g l' NMap'] eqn:E.
    + intros h a h' Er. right. by eapply render_leaf_clears.
    + rewrite <- E. apply IH.
Qed.

Lemma fading__map input : fading (_map isPrintTable GoSyntax rec input).
Proof.
  intros h a h' E.
  destruct (String.eqb_spec (split input).1 "each") as [Heach|Heach].
  - apply _map_frame in E as [_ P]; [|done]. destruct (P Heach) as [P1|P1].
    + by right.
    + rewrite P1. apply fades_refl.
  - revert E. unfold _map. destruct (split input) as [prefix rest]. cbn [fst] in Heach.
    destruct (String.eqb prefix "require"); [apply fading_require|].
    destruct (String.eqb_spec prefix "each") as [|_]; [done|].
    unfold bind at 1. unfold get.
    destruct (h_m h !! rest) as [mp|]; [|apply fading_ret].
    repeat (destruct (String.eqb prefix _); [apply fading_ret|]).
    destruct (String.eqb prefix "include"); [|apply fading_ret].
    destruct (negb _); [apply fading_require|apply fading_ret].
Qed.

Lemma fading_Map_body input : fading (Map_body isPrintTable GoSyntax rec input).
Proof.
  unfold Map_body. intros h a h'. unfold bind at 1. unfold get.
  destruct (h_preferred h) as [p|].
  - destruct (negb _); [apply fading_ret|apply fading__map].
  - apply fading__map.
Qed.

End RestoreStep.

Lemma fading_Map fuel : forall input, fading (Map isPrintTable GoSyntax fuel input).
Proof.
  induction fuel as [|fuel IH]; intros input; cbn [Map].
  - by intros h a h'.
  - apply fading_Map_body; [apply keeps_Map|done].
Qed.

(** What one placeholder leaves behind.  When [Map] returns, the cache, the
    bindings and the depth counter are as before, the preferred mapper is as
    before or [nil], and in a context without preferred mapper whose depth
    counter is the length of [indexes] (a new mapper is one) the whole context
    is as before: so there the same placeholder yields the same once more, and
    no placeholder changes what a later one yields. *)
Theorem Map_restores_context (fuel : nat) (input : string) (h : HTMLTemplateMapper)
    (a : string) (h' : HTMLTemplateMapper) :
  Map isPrintTable GoSyntax fuel input h = Ok a h' ->
  h_rsm h' = h_rsm h /\ h_m h' = h_m h /\ h_depth h' = h_depth h /\
  (h_preferred h' = h_preferred h \/ h_preferred h' = None) /\
  (h_preferred h = None -> h_depth h = Z.of_nat (length (h_indexes h)) ->
   h' = h /\ Map isPrintTable GoSyntax fuel input h' = Ok a h').
Proof.
  intros E. pose proof (keeps_Map _ _ _ _ _ _ _ E) as F.
  pose proof (fading_Map _ _ _ _ _ E) as P.
  destruct F as (R & B & D & L & I). repeat split; try done.
  - eapply frame_fades_same; [|done..]. by repeat split.
  - assert (h' = h) as -> by (eapply frame_fades_same; [|done..]; by repeat split).
    done.
Qed.

End Restore.

Lemma Map_restores_context_witness :
  let h := mkMapper Demo.cache Demo.bindings (Some Empty) [] 0 in
  let h' := NewMapper Demo.cache Demo.bindings in
  let out := "<li>Donald</li><li>Mickey</li><li>Donald</li><li>Mickey</li>" in
  Map (fun _ => true) (fun _ => "") 2 "-each users row" h = Ok out h' /\
  h_rsm h' = h_rsm h /\ h_m h' = h_m h /\ h_depth h' = h_depth h /\
  (h_preferred h' = h_preferred h \/ h_preferred h' = None) /\
  Map (fun _ => true) (fun _ => "") 2 "-each users row" h' = Ok out h'.
Proof.
  intros h h' out.
  assert (E : Map (fun _ => true) (fun _ => "") 2 "-each users row" h = Ok out h')
    by (vm_compute; reflexivity).
  assert (E' : Map (fun _ => true) (fun _ => "") 2 "-each users row" h' = Ok out h')
    by (vm_compute; reflexivity).
  destruct (Map_restores_context (fun _ => true) (fun _ => "") 2 "-each users row"
              h out h' E) as (R & B & D & P & _).
  destruct (Map_restores_context (fun _ => true) (fun _ => "") 2 "-each users row"
              h' out h' E') as (_ & _ & _ & _ & S).
  destruct (S eq_refl eq_refl) as [_ Again].
  repeat split; assumption.
Defined.

(** ** Rendering a whole template *)

Lemma ReplaceMapper_app rec t1 t2 : forall bf h,
  ReplaceMapper rec (t1 ++ t2) bf h
  = bind (ReplaceMapper rec t1 bf) (ReplaceMapper rec t2) h.
Proof.
  induction t1 as [|[s|expr] t1 IH]; intros bf h; cbn [ReplaceMapper app].
  - done.
  - apply IH.
  - unfold bind. destruct (rec expr h) as [v h1| |]; [|done|done].
    rewrite IH. reflexivity.
Qed.

(** The buffer is only appended to. *)
Lemma ReplaceMapper_buffer rec t : forall bf h,
  ReplaceMapper rec t bf h
  = match ReplaceMapper rec t "" h with
    | Ok out h' => Ok (bf +:+ out) h'
    | Panic msg => Panic msg
    | OutOfFuel => OutOfFuel
    end.
Proof.
  induction t as [|[s|expr] t IH]; intros bf h; cbn [ReplaceMapper].
  - unfold ret. by rewrite append_nil_r.
  - rewrite (IH (bf +:+ s)), (IH ("" +:+ s)).
    destruct (ReplaceMapper rec t "" h); [|done|done].
    by rewrite append_assoc.
  - unfold bind. destruct (rec expr h) as [v h1| |]; [|done|done].
    rewrite (IH (bf +:+ v)), (IH ("" +:+ v)).
    destruct (ReplaceMapper rec t "" h1); [|done|done].
    by rewrite append_assoc.
Qed.

Section Render.

Variable isPrintTable : Z -> bool.
Variable GoSyntax : Mapper -> string.

Lemma ReplaceMapper_restores fuel t : forall bf h a h',
  h_preferred h = None -> h_depth h = Z.of_nat (length (h_indexes h)) ->
  ReplaceMapper (Map isPrintTable GoSyntax fuel) t bf h = Ok a h' -> h' = h.
Proof.
  induction t as [|[s|expr] t IH]; intros bf h a h' P Hinv; cbn [ReplaceMapper].
  - unfold ret. by intros [= _ <-].
  - by apply IH.
  - intros (v & h1 & E1 & E2)%bind_Ok.
    assert (h1 = h) as ->.
    { eapply frame_fades_same; [by eapply keeps_Map|by eapply fading_Map|done..]. }
    by eapply IH.
Qed.

(** [Replace] of the example program, which renders with a new mapper: when
    the page returns, the mapper is as new; and the page of two templates put
    one after the other is the page of the first followed by the page of the
    second, so no placeholder changes what a later one yields. *)
Theorem Replace_app (fuel : nat) (t1 t2 : Template) (tt : HTMLTemplate)
    (m : gmap string Mapper) (o1 o2 : string) (h1 h2 : HTMLTemplateMapper) :
  Replace isPrintTable GoSyntax fuel t1 tt "" m = Ok o1 h1 ->
  Replace isPrintTable GoSyntax fuel t2 tt "" m = Ok o2 h2 ->
  h1 = HTMLTemplate_NewMapper tt m /\
  Replace isPrintTable GoSyntax fuel (t1 ++ t2) tt "" m
  = Ok (o1 +:+ o2) (HTMLTemplate_NewMapper tt m).
Proof.
  unfold Replace. intros E1 E2.
  assert (h1 = HTMLTemplate_NewMapper tt m) as ->
    by (eapply ReplaceMapper_restores; [| |exact E1]; reflexivity).
  split; [done|].
  rewrite ReplaceMapper_app. unfold bind. rewrite E1.
  rewrite ReplaceMapper_buffer, E2.
  f_equal. eapply ReplaceMapper_restores; [| |exact E2]; reflexivity.
Qed.

End Render.

Lemma Replace_app_witness :
  let tt := mkHTMLTemplate ∅ Demo.cache in
  Replace (fun _ => true) (fun _ => "") 3
    ([Text "<ul>"; Place "-each users row"] ++ [Text "</ul>"; Place "myclass"])
    tt "" Demo.bindings
  = Ok ("<ul><li>Donald</li><li>Mickey</li><li>Donald</li><li>Mickey</li>"
        +:+ "</ul>&lt;hiho&gt;")
       (HTMLTemplate_NewMapper tt Demo.bindings).
Proof.
  intros tt.
  refine (proj2 (Replace_app (fun _ => true) (fun _ => "") 3
                   [Text "<ul>"; Place "-each users row"]
                   [Text "</ul>"; Place "myclass"] tt Demo.bindings
                   _ _ (HTMLTemplate_NewMapper tt Demo.bindings)
                   (HTMLTemplate_NewMapper tt Demo.bindings) _ _));
    vm_compute; reflexivity.
Defined.

(** ** An [each] with a sub-path over a leaf *)

Section SubPath.

Variable isPrintTable : Z -> bool.
Variable GoSyntax : Mapper -> string.
Variable rec : string -> M string.
Hypothesis rec_keeps : forall expr, keeps (rec expr).

Lemma each_body_leaf_dead h0 t NMap sub i bf h a h' :
  isNMapper (NMap i sub) = false -> sub <> "" ->
  live h0 h -> each_body rec t NMap sub i bf h = Ok a h' -> dead h0 sub h'.
Proof.
  intros Hleaf Hsub Hlive E.
  destruct (each_body_live rec rec_keeps h0 t NMap sub i bf h a h' Hlive E)
    as [Hl|Hd]; [|done].
  exfalso. revert E. unfold each_body. cbn zeta. rewrite Hleaf.
  destruct (String.eqb_spec sub "") as [|_]; [done|]. cbn [negb].
  intros E.
  apply bind_Ok in E as (x1 & h1 & _ & E).
  apply bind_Ok in E as (p & h2 & _ & E).
  apply bind_Ok in E as (x3 & h3 & _ & E).
  apply bind_Ok in E as (bf' & h4 & _ & E).
  apply bind_Ok in E as (x5 & h5 & [= _ <-] & E).
  apply bind_Ok in E as (x6 & h6 & [= _ <-] & [= _ <-]).
  destruct Hl as (_ & _ & _ & L & _). cbn in L. done.
Qed.

Lemma each_loop_dead_stays h0 t NMap sub n i bf h a h' :
  dead h0 sub h -> for_loop (each_body rec t NMap sub) n i bf h = Ok a h' ->
  dead h0 sub h'.
Proof.
  apply (for_loop_inv (dead h0 sub)). clear n i bf h a h'.
  intros i bf h a h' Hd E. by destruct (each_body_dead _ _ _ _ _ _ _ _ _ _ Hd E).
Qed.

Lemma each_loop_reaches_leaf h0 t NMap sub n : forall i bf h a h',
  sub <> "" ->
  (exists j, i <= j < i + Z.of_nat n /\ isNMapper (NMap j sub) = false) ->
  live h0 h \/ dead h0 sub h ->
  for_loop (each_body rec t NMap sub) n i bf h = Ok a h' ->
  dead h0 sub h'.
Proof.
  induction n as [|n IH]; intros i bf h a h' Hsub (j & Hj & Hleaf) Hh; [lia|].
  cbn [for_loop]. intros (bf1 & h1 & E1 & E2)%bind_Ok.
  destruct Hh as [Hlive|Hdead];
    [|by destruct (each_body_dead _ _ _ _ _ _ _ _ _ _ Hdead E1)].
  destruct (decide (j = i)) as [->|Hne].
  - eapply each_loop_dead_stays; [|exact E2].
    by eapply each_body_leaf_dead.
  - eapply IH; [done| |by eapply each_body_live|exact E2].
    exists j. split; [lia|done].
Qed.

Lemma each_subpath_leaf_never_Ok input rest mpName sub inc h f l NMap t j a h' :
  split input = ("each", rest) ->
  each_args rest = Some (mpName, sub, inc) ->
  sub <> "" ->
  h_m h !! mpName = Some (Coll f l NMap) ->
  h_rsm h !! inc = Some t ->
  0 <= j < l -> isNMapper (NMap j sub) = false ->
  _map isPrintTable GoSyntax rec input h <> Ok a h'.
Proof.
  intros Hsplit Hargs Hsub Hbound Hcached Hj Hleaf. unfold _map. rewrite Hsplit.
  cbn [String.eqb Ascii.eqb Bool.eqb]. rewrite Hargs.
  unfold bind at 1. unfold get. rewrite Hbound, Hcached. intros E.
  apply bind_Ok in E as (x1 & h1 & [= _ <-] & E).
  apply bind_Ok in E as (x2 & h2 & [= _ <-] & E).
  apply bind_Ok in E as (bf1 & h3 & E3 & E).
  apply bind_Ok in E as (bf2 & h4 & E4 & E).
  apply bind_Ok in E as (x5 & h5 & [= _ <-] & E).
  apply bind_Ok in E as (x6 & h6 & E6 & _).
  apply each_loop_reaches_leaf with (h0 := h) in E3; [|done| |].
  - apply keeps_replaceVars in E4; [|done].
    destruct (dead_frame _ _ _ _ E3 E4) as (_ & _ & X & _).
    revert E6. unfold pop_index, bind, get. cbn [h_indexes]. by rewrite X.
  - exists j. split; [lia|done].
  - left. unfold live. cbn. rewrite length_app, Nat.add_1_r.
    repeat split; try done. intros _. apply removelast_last.
Qed.

End SubPath.

(** An [each] placeholder with a sub-path never returns when an element of the
    collection, asked for the sub-path, is a leaf: the branch sets [indexes]
    to the empty slice for that element, and then panics, on the next element
    or on the slice expression that pops [indexes], unless the templates it
    renders do not return. *)
Theorem each_subpath_leaf_aborts (isPrintTable : Z -> bool) (GoSyntax : Mapper -> string)
    (fuel : nat) (input rest mpName sub inc : string) (h : HTMLTemplateMapper)
    (f : string -> string) (l : Z) (NMap : Z -> string -> Mapper) (t : Template) (j : Z)
    (a : string) (h' : HTMLTemplateMapper) :
  split input = ("each", rest) ->
  each_args rest = Some (mpName, sub, inc) ->
  sub <> "" ->
  h_m h !! mpName = Some (Coll f l NMap) ->
  h_rsm h !! inc = Some t ->
  0 <= j < l -> isNMapper (NMap j sub) = false ->
  _map isPrintTable GoSyntax (Map isPrintTable GoSyntax fuel) input h <> Ok a h'.
Proof.
  intros. eapply each_subpath_leaf_never_Ok; try done. apply keeps_Map.
Qed.

Lemma each_subpath_leaf_aborts_witness :
  let h := NewMapper Demo.cache Demo.bindings in
  _map (fun _ => true) (fun _ => "") (Map (fun _ => true) (fun _ => "") 1)
    "-each users.address row" h = Panic index_out_of_range /\
  _map (fun _ => true) (fun _ => "") (Map (fun _ => true) (fun _ => "") 1)
    "-each users.address row" h <> Ok "" h.
Proof.
  intros h. split; [vm_compute; reflexivity|].
  refine (each_subpath_leaf_aborts (fun _ => true) (fun _ => "") 1
            "-each users.address row" "users.address row" "users" "address" "row" h
            (fun _ => "") 2 (Demo.Users_NMap Demo.u)
            [Text "<li>"; Place "firstname"; Text "</li>"] 1 "" h
            eq_refl eq_refl _ _ _ _ _).
  - discriminate.
  - vm_compute. reflexivity.
  - vm_compute. reflexivity.
  - lia.
  - reflexivity.
Defined.

(** ** The fuel of the model *)

Lemma stable_refl {A} (r : result A) : stable r r.
Proof. by right. Qed.

Lemma stable_bind {A B} (c c' : M A) (k k' : A -> M B) h :
  stable (c h) (c' h) -> (forall a h1, stable (k a h1) (k' a h1)) ->
  stable (bind c k h) (bind c' k' h).
Proof.
  unfold stable, bind. intros [E|E] Hk; [rewrite E; by left|]. rewrite E.
  destruct (c h) as [a h1| |]; [apply Hk|by right|by right].
Qed.

Lemma stable_for_loop (body body' : Z -> string -> M string) n : forall i bf h,
  (forall i bf h, stable (body i bf h) (body' i bf h)) ->
  stable (for_loop body n i bf h) (for_loop body' n i bf h).
Proof.
  induction n as [|n IH]; intros i bf h Hbody; cbn [for_loop].
  - apply stable_refl.
  - apply stable_bind; [apply Hbody|intros bf' h1; by apply IH].
Qed.

Section Stable.

Variable isPrintTable : Z -> bool.
Variable GoSyntax : Mapper -> string.

Section StableStep.

(** [rec'] is [rec] with more fuel. *)
Variables rec rec' : string -> M string.
Hypothesis rec_stable : forall expr h, stable (rec expr h) (rec' expr h).

Lemma stable_ReplaceMapper t : forall bf h,
  stable (ReplaceMapper rec t bf h) (ReplaceMapper rec' t bf h).
Proof.
  induction t as [|[s|expr] t IH]; intros bf h; cbn [ReplaceMapper].
  - apply stable_refl.
  - apply IH.
  - apply stable_bind; [apply rec_stable|intros v h1; apply IH].
Qed.

Lemma stable_require name h : stable (require rec name h) (require rec' name h).
Proof.
  unfold require. apply stable_bind; [apply stable_refl|intros h0 h1].
  destruct (h_rsm h0 !! name); [apply stable_ReplaceMapper|apply stable_refl].
Qed.

Lemma stable_render_leaf t m bf h :
  stable (render_leaf rec t m bf h) (render_leaf rec' t m bf h).
Proof.
  unfold render_leaf. apply stable_bind; [apply stable_refl|intros _ h1].
  apply stable_bind; [apply stable_ReplaceMapper|intros bf' h2]. apply stable_refl.
Qed.

Lemma stable_replaceVars nm : forall t sub bf h,
  stable (replaceVars rec t nm sub bf h) (replaceVars rec' t nm sub bf h).
Proof.
  induction nm as [f|f l NMap IH]; intros t sub bf h; cbn [replaceVars].
  - apply stable_refl.
  - apply stable_for_loop. intros i bf' h1. cbn zeta.
    destruct (NMap i sub) as [g|g l' NMap'] eqn:E.
    + apply stable_render_leaf.
    + rewrite <- E. apply IH.
Qed.

Lemma stable_each_body t NMap sub i bf h :
  stable (each_body rec t NMap sub i bf h) (each_body rec' t NMap sub i bf h).
Proof.
  unfold each_body. cbn zeta. destruct (isNMapper (NMap i sub)).
  - apply stable_bind; [apply stable_refl|intros _ h1; apply stable_replaceVars].
  - destruct (negb (String.eqb sub "")).
    + apply stable_bind; [apply stable_refl|intros _ h1].
      apply stable_bind; [apply stable_refl|intros p h2].
      apply stable_bind; [apply stable_refl|intros _ h3].
      apply stable_bind; [apply stable_ReplaceMapper|intros bf' h4].
      apply stable_refl.
    + apply stable_bind; [apply stable_refl|intros _ h1; apply stable_render_leaf].
Qed.

Lemma stable__map input h :
  stable (_map isPrintTable GoSyntax rec input h) (_map isPrintTable GoSyntax rec' input h).
Proof.
  unfold _map. destruct (split input) as [prefix rest].
  destruct (String.eqb prefix "require"); [apply stable_require|].
  destruct (String.eqb prefix "each").
  - destruct (each_args rest) as [[[mpName sub] inc]|]; [|apply stable_refl].
    apply stable_bind; [apply stable_refl|intros h0 h1].
    destruct (h_m h0 !! mpName) as [mp|]; [|apply stable_refl].
    destruct (h_rsm h0 !! inc) as [t|]; [|apply stable_refl].
    destruct mp as [f|f l NMap]; [apply stable_refl|].
    apply stable_bind; [apply stable_refl|intros _ h2].
    apply stable_bind; [apply stable_refl|intros _ h3].
    apply stable_bind; [apply stable_for_loop; intros; apply stable_each_body|intros bf h4].
    apply stable_bind; [apply stable_replaceVars|intros bf' h5].
    apply stable_refl.
  - apply stable_bind; [apply stable_refl|intros h0 h1].
    destruct (h_m h0 !! rest) as [mp|]; [|apply stable_refl].
    repeat (destruct (String.eqb prefix _); [apply stable_refl|]).
    destruct (String.eqb prefix "include"); [|apply stable_refl].
    destruct (negb _); [apply stable_require|apply stable_refl].
Qed.

Lemma stable_Map_body input h :
  stable (Map_body isPrintTable GoSyntax rec input h)
         (Map_body isPrintTable GoSyntax rec' input h).
Proof.
  unfold Map_body. apply stable_bind; [apply stable_refl|intros h0 h1].
  destruct (h_preferred h0) as [p|]; [|apply stable__map].
  destruct (negb _); [apply stable_refl|apply stable__map].
Qed.

End StableStep.

Lemma stable_Map_S fuel : forall input h,
  stable (Map isPrintTable GoSyntax fuel input h)
         (Map isPrintTable GoSyntax (S fuel) input h).
Proof.
  induction fuel as [|fuel IH]; intros input h.
  - by left.
  - change (stable (Map_body isPrintTable GoSyntax (Map isPrintTable GoSyntax fuel) input h)
              (Map_body isPrintTable GoSyntax (Map isPrintTable GoSyntax (S fuel)) input h)).
    by apply stable_Map_body.
Qed.

(** The fuel is a device of the model, and the results do not depend on it:
    when [Map] returns a value or panics with some fuel, it does the same with
    every larger fuel. *)
Lemma Map_fuel_stable (fuel fuel' : nat) (input : string) (h : HTMLTemplateMapper) :
  (fuel <= fuel')%nat ->
  Map isPrintTable GoSyntax fuel input h <> OutOfFuel ->
  Map isPrintTable GoSyntax fuel' input h = Map isPrintTable GoSyntax fuel input h.
Proof.
  intros Hle Hres. induction Hle as [|fuel' Hle IH]; [done|].
  destruct (stable_Map_S fuel' input h) as [E|E]; [congruence|].
  by rewrite E.
Qed.

End Stable.
